(** * Chat widget: a shallow embedding of the three shipped variants

    The repository ships one browser widget in three versions:
    - [static/app.js]: every bubble is rendered through [escapeHtml];
    - the Markdown version: bot bubbles go through [markdownToHtml],
      user bubbles through [textContent];
    - the early version: bubbles are spliced into [chatBox.innerHTML],
      no [try]/[finally], no busy state.

    JavaScript strings are sequences of UTF-16 code units; they are
    modelled as lists of [N].  Regular expressions are interpreted by a
    backtracking matcher written in continuation-passing style, the way
    ECMA-262 specifies them.  The body of the [async] submit handler is a
    tree of synchronous effects, reads, exceptions and [await]s; it is run
    either alone against the outcome of its request ([run]) or as one of
    several handlers on the event loop ([play]). *)

From Stdlib Require Import List NArith Arith Bool Lia String Ascii.
Import ListNotations.

Set Implicit Arguments.

(** ** JavaScript strings *)

Module JsString.

Definition jsstring := list N.

(** An ASCII literal as a JavaScript string. *)
Definition str (s : string) : jsstring :=
  map N_of_ascii (list_ascii_of_string s).

(** [a === b] on strings. *)
Fixpoint eqb (a b : jsstring) : bool :=
  match a, b with
  | [], [] => true
  | x :: a', y :: b' => (x =? y)%N && eqb a' b'
  | _, _ => false
  end.

(** Code units of the punctuation the widget cares about. *)
Definition LT : N := 60.    (* < *)
Definition GT : N := 62.    (* > *)
Definition AMP : N := 38.   (* & *)
Definition NBSP : N := 160. (* U+00A0 *)
Definition DOLLAR : N := 36.

(** ECMA-262 LineTerminator: LF, CR, LS, PS. *)
Definition isLineTerminator (c : N) : bool :=
  (c =? 10)%N || (c =? 13)%N || (c =? 8232)%N || (c =? 8233)%N.

(** ECMA-262 WhiteSpace or LineTerminator: what [trim] strips and what
    the class escape [\s] matches. *)
Definition isWhiteSpace (c : N) : bool :=
  (c =? 9)%N || (c =? 11)%N || (c =? 12)%N || (c =? 32)%N || (c =? 160)%N
  || (c =? 5760)%N || ((8192 <=? c)%N && (c <=? 8202)%N)
  || (c =? 8239)%N || (c =? 8287)%N || (c =? 12288)%N || (c =? 65279)%N
  || isLineTerminator c.

Fixpoint trimStart (s : jsstring) : jsstring :=
  match s with
  | c :: s' => if isWhiteSpace c then trimStart s' else s
  | [] => []
  end.

Definition trimEnd (s : jsstring) : jsstring := rev (trimStart (rev s)).

(** [String.prototype.trim]. *)
Definition trim (s : jsstring) : jsstring := trimEnd (trimStart s).

(** [S.substring(from, to)] for [from <= to]. *)
Definition substring (s : jsstring) (from to : nat) : jsstring :=
  firstn (to - from) (skipn from s).

Fixpoint startsWith (p s : jsstring) : bool :=
  match p, s with
  | [], _ => true
  | a :: p', b :: s' => (a =? b)%N && startsWith p' s'
  | _ :: _, [] => false
  end.

Definition endsWith (p s : jsstring) : bool := startsWith (rev p) (rev s).

(** [s.includes(p)]. *)
Fixpoint includes (p s : jsstring) : bool :=
  startsWith p s || match s with [] => false | _ :: s' => includes p s' end.

(** Number of positions of [s] at which [p] occurs. *)
Fixpoint occurrences (p s : jsstring) : nat :=
  (if startsWith p s then 1 else 0)
  + match s with [] => 0 | _ :: s' => occurrences p s' end.

End JsString.
Import JsString.

(** ** Regular expressions (ECMA-262, no [u], [i] or [y] flag) *)

Module RegExp.

Inductive regex : Type :=
| Empty                                        (* the empty pattern *)
| Chr (c : N)                                  (* a literal code unit *)
| Dot                                          (* [.] *)
| Space                                        (* [\s] *)
| Bol                                          (* [^] *)
| Eol                                          (* [$] *)
| Seq (r1 r2 : regex)
| Alt (r1 r2 : regex)                          (* [r1|r2] *)
| Group (i : nat) (r : regex)                  (* i-th capturing group *)
| Repeat (min : nat) (greedy : bool) (r : regex). (* r{min,} and r{min,}? *)

Record flags := { global : bool; multiline : bool; dotAll : bool }.

(** A literal run of characters. *)
Fixpoint lit (s : jsstring) : regex :=
  match s with
  | [] => Empty
  | [c] => Chr c
  | c :: s' => Seq (Chr c) (lit s')
  end.

Fixpoint seq (rs : list regex) : regex :=
  match rs with
  | [] => Empty
  | [r] => r
  | r :: rs' => Seq r (seq rs')
  end.

(** Match state of ECMA-262: the end index and the captures, each
    capture a half-open range of the input or undefined. *)
Record mstate := { endIndex : nat; captures : list (option (nat * nat)) }.

Fixpoint set_nth {A} (i : nat) (v : A) (l : list A) : list A :=
  match l, i with
  | [], _ => []
  | _ :: l', O => v :: l'
  | x :: l', S i' => x :: set_nth i' v l'
  end.

(** Indices of the capturing groups inside a pattern. *)
Fixpoint groups (r : regex) : list nat :=
  match r with
  | Seq r1 r2 | Alt r1 r2 => groups r1 ++ groups r2
  | Group i r' => i :: groups r'
  | Repeat _ _ r' => groups r'
  | _ => []
  end.

Definition clear (gs : list nat) (x : mstate) : mstate :=
  {| endIndex := endIndex x;
     captures := fold_left (fun caps i => set_nth i None caps) gs (captures x) |}.

(** Backtracking: the second alternative is tried only after the first
    one failed. *)
Notation "a 'orelse' b" :=
  (match a with Some z => Some z | None => b end)
  (at level 70, only parsing).

Section Matcher.
Variable input : jsstring.
Variable fl : flags.

Definition continuation := mstate -> option mstate.

Definition consume (x : mstate) : mstate :=
  {| endIndex := S (endIndex x); captures := captures x |}.

(** CharacterSetMatcher. *)
Definition charset (p : N -> bool) (x : mstate) (c : continuation) : option mstate :=
  match nth_error input (endIndex x) with
  | Some ch => if p ch then c (consume x) else None
  | None => None
  end.

Definition at_bol (e : nat) : bool :=
  match e with
  | O => true
  | S e' => multiline fl &&
            match nth_error input e' with
            | Some ch => isLineTerminator ch
            | None => false
            end
  end.

Definition at_eol (e : nat) : bool :=
  (e =? List.length input) ||
  (multiline fl &&
   match nth_error input e with
   | Some ch => isLineTerminator ch
   | None => false
   end).

(** RepeatMatcher with an unbounded maximum.  [n] bounds the number of
    iterations still to run: every iteration past the mandatory ones must
    consume a code unit (the empty check below), so the start value used by
    [matcher] is enough and a larger one gives the same result
    ([repeat_fuel_suffices]). *)
Fixpoint repeatMatcher (m : mstate -> continuation -> option mstate)
         (gs : list nat) (greedy : bool)
         (n : nat) (min : nat) (x : mstate) (c : continuation) : option mstate :=
  match n with
  | O => match min with O => c x | S _ => None end
  | S n' =>
      let d := fun y : mstate =>
        match min with
        | O => if endIndex y =? endIndex x then None
               else repeatMatcher m gs greedy n' 0 y c
        | S min' => repeatMatcher m gs greedy n' min' y c
        end in
      let xr := clear gs x in
      match min with
      | S _ => m xr d
      | O => if greedy then (m xr d) orelse (c x)
             else (c x) orelse (m xr d)
      end
  end.

Fixpoint matcher (r : regex) (x : mstate) (c : continuation) : option mstate :=
  match r with
  | Empty => c x
  | Chr ch => charset (N.eqb ch) x c
  | Dot => charset (fun ch => dotAll fl || negb (isLineTerminator ch)) x c
  | Space => charset isWhiteSpace x c
  | Bol => if at_bol (endIndex x) then c x else None
  | Eol => if at_eol (endIndex x) then c x else None
  | Seq r1 r2 => matcher r1 x (fun y => matcher r2 y c)
  | Alt r1 r2 => (matcher r1 x c) orelse (matcher r2 x c)
  | Group i r' =>
      matcher r' x (fun y =>
        c {| endIndex := endIndex y;
             captures := set_nth i (Some (endIndex x, endIndex y)) (captures y) |})
  | Repeat min greedy r' =>
      repeatMatcher (matcher r') (groups r') greedy
                    (S (min + List.length input)) min x c
  end.

Definition ncaptures (r : regex) : nat := S (list_max (groups r)).

(** One attempt of the pattern at index [i]. *)
Definition matchAt (r : regex) (i : nat) : option mstate :=
  matcher r {| endIndex := i; captures := repeat None (ncaptures r) |}
          (fun y => Some y).

(** RegExpBuiltinExec for a non-sticky pattern: the first index at or
    after [lastIndex] at which the pattern matches.  [k] counts the
    indices left to try, [List.length input - lastIndex + 1] of them. *)
Fixpoint execFrom (r : regex) (k : nat) (lastIndex : nat) : option (nat * mstate) :=
  match k with
  | O => None
  | S k' =>
      match matchAt r lastIndex with
      | Some y => Some (lastIndex, y)
      | None => execFrom r k' (S lastIndex)
      end
  end.

Definition exec (r : regex) (lastIndex : nat) : option (nat * mstate) :=
  execFrom r (S (List.length input) - lastIndex) lastIndex.

(** The result list of [RegExp.prototype[Symbol.replace]] with the [g]
    flag: exec until null, stepping over empty matches.  [k] bounds the
    number of rounds; the start value used by [results] is enough
    ([collect_fuel_suffices]). *)
Fixpoint collect (r : regex) (k : nat) (lastIndex : nat) : list (nat * mstate) :=
  match k with
  | O => []
  | S k' =>
      match exec r lastIndex with
      | None => []
      | Some (p, y) =>
          let e := endIndex y in
          (p, y) :: collect r k' (if e =? p then S e else e)
      end
  end.

Definition results (r : regex) : list (nat * mstate) :=
  if global fl then collect r (S (S (List.length input))) 0
  else match exec r 0 with Some m => [m] | None => [] end.

Definition capture (y : mstate) (i : nat) : jsstring :=
  match nth_error (captures y) i with
  | Some (Some (a, b)) => substring input a b
  | _ => []
  end.

Definition digit (c : N) : option nat :=
  if ((49 <=? c)%N && (c <=? 57)%N)%bool then Some (N.to_nat c - 48) else None.

(** GetSubstitution for patterns with fewer than ten groups and no
    named group: [$$], [$&], [$`], [$'] and [$1] .. [$9]. *)
Fixpoint getSubstitution (r : regex) (p : nat) (y : mstate) (template : jsstring)
  : jsstring :=
  match template with
  | [] => []
  | d :: t =>
      if negb (d =? DOLLAR)%N then d :: getSubstitution r p y t
      else
        match t with
        | [] => [d]
        | c :: rest =>
            if (c =? DOLLAR)%N then DOLLAR :: getSubstitution r p y rest
            else if (c =? 38)%N   (* $& *)
            then substring input p (endIndex y) ++ getSubstitution r p y rest
            else if (c =? 96)%N   (* $` *)
            then firstn p input ++ getSubstitution r p y rest
            else if (c =? 39)%N   (* $' *)
            then skipn (endIndex y) input ++ getSubstitution r p y rest
            else match digit c with
                 | Some i => if i <? ncaptures r
                             then capture y i ++ getSubstitution r p y rest
                             else d :: getSubstitution r p y t
                 | None => d :: getSubstitution r p y t
                 end
        end
  end.

(** Splicing the replacements into the input. *)
Fixpoint splice (r : regex) (template : jsstring) (ms : list (nat * mstate))
         (nextSourcePosition : nat) : jsstring :=
  match ms with
  | [] => skipn nextSourcePosition input
  | (p, y) :: ms' =>
      if nextSourcePosition <=? p
      then substring input nextSourcePosition p
           ++ getSubstitution r p y template
           ++ splice r template ms' (endIndex y)
      else splice r template ms' nextSourcePosition
  end.

End Matcher.

(** [input.replace(/r/flags, template)]. *)
Definition replace (r : regex) (fl : flags) (template : jsstring) (input : jsstring)
  : jsstring :=
  splice input r template (results input fl r) 0.

Definition flags_g : flags := {| global := true; multiline := false; dotAll := false |}.
Definition flags_gm : flags := {| global := true; multiline := true; dotAll := false |}.
Definition flags_gs : flags := {| global := true; multiline := false; dotAll := true |}.

End RegExp.
Import RegExp.

(** ** The Markdown variant's converter *)

Module Markdown.

Definition LF : N := 10.

(** [/###\s+(.*?)(\n|$)/g] *)
Definition re_heading : regex :=
  seq [lit (str "###"); Repeat 1 true Space;
       Group 1 (Repeat 0 false Dot); Group 2 (Alt (Chr LF) Eol)].

(** [/\*\*(.*?)\*\*/g] *)
Definition re_bold : regex :=
  seq [lit (str "**"); Group 1 (Repeat 0 false Dot); lit (str "**")].

(** [/^\*\s+(.*?)(\n|$)/gm] *)
Definition re_item : regex :=
  seq [Bol; Chr 42; Repeat 1 true Space;
       Group 1 (Repeat 0 false Dot); Group 2 (Alt (Chr LF) Eol)].

(** [/(<li>.*<\/li>)+/gs] *)
Definition re_list : regex :=
  Repeat 1 true
    (Group 1 (seq [lit (str "<li>"); Repeat 0 true Dot; lit (str "</li>")])).

Definition markdownToHtml (text : jsstring) : jsstring :=
  let t := replace re_heading flags_g (str "<h3>$1</h3>") text in
  let t := replace re_bold flags_g (str "<strong>$1</strong>") t in
  let t := replace re_item flags_gm (str "<li>$1</li>") t in
  let t := replace re_list flags_gs (str "<ul>$&</ul>") t in
  let t := replace (lit [LF; LF]) flags_g (str "</p><p>") t in
  let t := replace (Chr LF) flags_g (str "<br>") t in
  let t := replace Bol flags_g (str "<p>") t in
  let t := replace Eol flags_g (str "</p>") t in
  replace (lit (str "<p></p>")) flags_g [] t.

End Markdown.
Import Markdown.

(** ** JavaScript values that reach the widget *)

Module Js.

(** A field of the parsed response is a string or missing. *)
Inductive jsval : Type :=
| Undefined
| Str (s : jsstring).

(** ToString, as applied by template literals. *)
Definition toString (v : jsval) : jsstring :=
  match v with
  | Undefined => str "undefined"
  | Str s => s
  end.

(** ToBoolean. *)
Definition truthy (v : jsval) : bool :=
  match v with
  | Undefined => false
  | Str [] => false
  | Str (_ :: _) => true
  end.

(** [a || b]. *)
Definition logical_or (a b : jsval) : jsval := if truthy a then a else b.

Inductive exn : Type :=
| NetworkFailure              (* fetch rejected *)
| Error (message : jsstring)  (* new Error(message) *)
| SyntaxError                 (* res.json() on a malformed body *)
| TypeError.                  (* a method called on undefined *)

End Js.
Import Js.

(** ** The part of the DOM the widget touches *)

Module Dom.

#[local] Set Warnings "-register-all".
Inductive node : Type :=
| Text (data : jsstring)
| Parsed (markup : jsstring)
  (* the nodes the browser's HTML parser builds from [markup]; the parser
     itself is not modelled *)
| Elem (tagName className : jsstring) (childNodes : list node).

Definition createElement (tagName : jsstring) : node := Elem tagName [] [].

Definition set_className (cls : jsstring) (e : node) : node :=
  match e with
  | Elem tag _ kids => Elem tag cls kids
  | _ => e
  end.

(** [e.textContent = v]: all children are replaced by one text node, or by
    nothing when the string is empty; [undefined] and [null] count as the
    empty string for this attribute. *)
Definition set_textContent (v : jsval) (e : node) : node :=
  match e with
  | Elem tag cls _ =>
      match v with
      | Str (c :: s) => Elem tag cls [Text (c :: s)]
      | _ => Elem tag cls []
      end
  | _ => e
  end.

(** [e.innerHTML = markup]: the children are whatever the parser makes of
    the markup. *)
Definition set_innerHTML (markup : jsstring) (e : node) : node :=
  match e with
  | Elem tag cls _ =>
      match markup with
      | [] => Elem tag cls []
      | _ => Elem tag cls [Parsed markup]
      end
  | _ => e
  end.

Definition appendChild (child : node) (e : node) : node :=
  match e with
  | Elem tag cls kids => Elem tag cls (kids ++ [child])
  | _ => e
  end.

(** "Escaping a string" of the HTML serialisation algorithm, text mode. *)
Definition escapeChar (c : N) : jsstring :=
  if (c =? AMP)%N then str "&amp;"
  else if (c =? NBSP)%N then str "&nbsp;"
  else if (c =? LT)%N then str "&lt;"
  else if (c =? GT)%N then str "&gt;"
  else [c].

Definition escapeString (s : jsstring) : jsstring := flat_map escapeChar s.

Definition QUOT : N := 34.

(** The same in attribute mode. *)
Definition escapeAttr (s : jsstring) : jsstring :=
  flat_map (fun c => if (c =? QUOT)%N then str "&quot;" else escapeChar c) s.

(** The HTML fragment serialisation of one node.  Markup that went through
    the parser is taken to serialise to itself. *)
Fixpoint serialize (n : node) : jsstring :=
  match n with
  | Text data => escapeString data
  | Parsed markup => markup
  | Elem tag cls kids =>
      [LT] ++ tag
      ++ match cls with
         | [] => []
         | _ => str " class=" ++ [QUOT] ++ escapeAttr cls ++ [QUOT]
         end
      ++ [GT] ++ flat_map serialize kids ++ [LT; 47%N] ++ tag ++ [GT]
  end.

(** [e.innerHTML]. *)
Definition innerHTML (e : node) : jsstring :=
  match e with
  | Elem _ _ kids => flat_map serialize kids
  | _ => []
  end.

(** Character references in markup that holds no tag: what the tokenizer's
    data state turns the four references of [escapeChar] back into.  Any
    other ampersand is kept as it is. *)
Fixpoint decodeText (markup : jsstring) : jsstring :=
  match markup with
  | [] => []
  | c :: rest =>
      if negb (c =? AMP)%N then c :: decodeText rest
      else match rest with
           | 97%N :: 109%N :: 112%N :: 59%N :: rest' =>            (* amp; *)
               AMP :: decodeText rest'
           | 110%N :: 98%N :: 115%N :: 112%N :: 59%N :: rest' =>   (* nbsp; *)
               NBSP :: decodeText rest'
           | 108%N :: 116%N :: 59%N :: rest' =>                    (* lt; *)
               LT :: decodeText rest'
           | 103%N :: 116%N :: 59%N :: rest' =>                    (* gt; *)
               GT :: decodeText rest'
           | _ => c :: decodeText rest
           end
  end.

End Dom.
Import Dom.

(** [escapeHtml], the same function in [static/app.js] and in the Markdown
    variant. *)
Definition escapeHtml (text : jsval) : jsstring :=
  let div := createElement (str "div") in
  let div := set_textContent text div in
  innerHTML div.

(** ** Widget state, network outcomes and effects *)

Module Widget.

(** One entry of the [history] array. *)
Record turn := { sender : jsstring; text : jsval }.

(** Where the keyboard focus is. *)
Inductive focus : Type := OnInput | OnButton | OnBody.

Record widget := {
  history : list turn;        (* let history = [] *)
  value : jsstring;           (* input.value *)
  disabled : bool;            (* input.disabled *)
  activeElement : focus;      (* document.activeElement *)
  label : jsstring;           (* submitBtn.textContent *)
  chatBox : node              (* the #chat-box element *)
}.

(** The page right after the script has run; the markup of the page gives
    the button its caption. *)
Definition page_load (caption : jsstring) : widget :=
  {| history := []; value := []; disabled := false; activeElement := OnBody;
     label := caption; chatBox := Elem (str "div") [] [] |}.

(** The body of the POST request: [JSON.stringify({ message: text, history })]
    kept structured. *)
Record request := { message : jsstring; sent_history : list turn }.

(** The parsed body of a response. *)
Record data := { success : bool; response : jsval; error : jsval }.

(** What [fetch] resolves with: the status class and the body, [None] when
    the body is not JSON. *)
Record response_t := { ok : bool; body : option data }.

(** The outcome of one request, chosen by the network and the backend. *)
Inductive outcome : Type :=
| Rejects                       (* fetch rejects: the server is unreachable *)
| Resolves (res : response_t).

(** The synchronous effects of the handler. *)
Inductive event : Type :=
| PreventDefault                    (* e.preventDefault() *)
| AppendChild (bubble : node)       (* chatBox.appendChild(messageDiv) *)
| AppendMarkup (markup : jsstring)  (* chatBox.innerHTML += markup *)
| ScrollToBottom                    (* chatBox.scrollTop = chatBox.scrollHeight *)
| SetValue (s : jsstring)           (* input.value = s *)
| SetDisabled (b : bool)            (* input.disabled = b *)
| SetLabel (s : jsstring)           (* submitBtn.textContent = s *)
| Focus                             (* input.focus() *)
| Fetch (req : request)             (* the call of fetch: the request leaves *)
| ReadJson                          (* the call of res.json() *)
| Push (t : turn)                   (* history.push(t) *)
| ConsoleError (msg : jsstring) (err : exn).

(** What an effect does to the page.  A control that gets disabled cannot
    keep the focus, which falls back to the body, and a disabled control
    does not take it. *)
Definition perform (e : event) (w : widget) : widget :=
  match e with
  | AppendChild bubble =>
      {| history := history w; value := value w; disabled := disabled w;
         activeElement := activeElement w; label := label w;
         chatBox := appendChild bubble (chatBox w) |}
  | AppendMarkup markup =>
      {| history := history w; value := value w; disabled := disabled w;
         activeElement := activeElement w; label := label w;
         chatBox := set_innerHTML (innerHTML (chatBox w) ++ markup) (chatBox w) |}
  | SetValue s =>
      {| history := history w; value := s; disabled := disabled w;
         activeElement := activeElement w; label := label w;
         chatBox := chatBox w |}
  | SetDisabled b =>
      {| history := history w; value := value w; disabled := b;
         activeElement :=
           match activeElement w with
           | OnInput => if b then OnBody else OnInput
           | f => f
           end;
         label := label w; chatBox := chatBox w |}
  | SetLabel s =>
      {| history := history w; value := value w; disabled := disabled w;
         activeElement := activeElement w; label := s; chatBox := chatBox w |}
  | Focus =>
      {| history := history w; value := value w; disabled := disabled w;
         activeElement := if disabled w then activeElement w else OnInput;
         label := label w; chatBox := chatBox w |}
  | Push t =>
      {| history := history w ++ [t]; value := value w; disabled := disabled w;
         activeElement := activeElement w; label := label w;
         chatBox := chatBox w |}
  | PreventDefault | ScrollToBottom | Fetch _ | ReadJson | ConsoleError _ _ => w
  end.

(** The body of an [async] function: synchronous effects and reads of the
    page, exceptions, and the two places where the handler awaits. *)
Inductive async (A : Type) : Type :=
| Ret (a : A)
| Raise (e : exn)
| Do (e : event) (k : async A)
| Read (B : Type) (f : widget -> B) (k : B -> async A)
| AwaitFetch (k : outcome -> async A)                     (* await fetch(...) *)
| AwaitJson (res : response_t) (k : option data -> async A). (* await res.json() *)
Arguments Ret {A} a.
Arguments Raise {A} e.
Arguments Do {A} e k.
Arguments Read {A B} f k.
Arguments AwaitFetch {A} k.
Arguments AwaitJson {A} res k.

Definition ret {A} (a : A) : async A := Ret a.
Definition throw {A} (e : exn) : async A := Raise e.

Fixpoint bind {A B} (m : async A) (f : A -> async B) : async B :=
  match m with
  | Ret a => f a
  | Raise e => Raise e
  | Do e k => Do e (bind k f)
  | Read g k => Read g (fun b => bind (k b) f)
  | AwaitFetch k => AwaitFetch (fun o => bind (k o) f)
  | AwaitJson res k => AwaitJson res (fun d => bind (k d) f)
  end.

Declare Scope widget_scope.
Delimit Scope widget_scope with widget.
Notation "x <- m ;; k" := (bind m (fun x => k))
  (at level 61, m at next level, right associativity) : widget_scope.
Notation "m ;; k" := (bind m (fun _ => k))
  (at level 61, right associativity) : widget_scope.
Local Open Scope widget_scope.

(** [try { body } finally { cleanup }]: the cleanup runs on both exits and
    the exit of the body is kept, unless the cleanup throws itself. *)
Fixpoint try_finally {A} (body : async A) (cleanup : async unit) : async A :=
  match body with
  | Ret a => cleanup ;; Ret a
  | Raise e => cleanup ;; Raise e
  | Do e k => Do e (try_finally k cleanup)
  | Read g k => Read g (fun b => try_finally (k b) cleanup)
  | AwaitFetch k => AwaitFetch (fun o => try_finally (k o) cleanup)
  | AwaitJson res k => AwaitJson res (fun d => try_finally (k d) cleanup)
  end.

(** [try { body } catch (err) { handler } finally { cleanup }]. *)
Fixpoint try_catch_finally {A} (body : async A) (handler : exn -> async A)
         (cleanup : async unit) : async A :=
  match body with
  | Ret a => cleanup ;; Ret a
  | Raise e => try_finally (handler e) cleanup
  | Do e k => Do e (try_catch_finally k handler cleanup)
  | Read g k => Read g (fun b => try_catch_finally (k b) handler cleanup)
  | AwaitFetch k => AwaitFetch (fun o => try_catch_finally (k o) handler cleanup)
  | AwaitJson res k =>
      AwaitJson res (fun d => try_catch_finally (k d) handler cleanup)
  end.

Definition emit (e : event) : async unit := Do e (Ret tt).
Definition gets {B} (f : widget -> B) : async B := Read f (fun b => Ret b).

(** *** Primitive operations *)

Definition preventDefault : async unit := emit PreventDefault.
Definition set_value (s : jsstring) : async unit := emit (SetValue s).
Definition set_disabled (b : bool) : async unit := emit (SetDisabled b).
Definition set_label (s : jsstring) : async unit := emit (SetLabel s).
Definition focus_input : async unit := emit Focus.
Definition push (t : turn) : async unit := emit (Push t).
Definition chatBox_appendChild (messageDiv : node) : async unit :=
  emit (AppendChild messageDiv).
Definition chatBox_appendMarkup (markup : jsstring) : async unit :=
  emit (AppendMarkup markup).
Definition scrollToBottom : async unit := emit ScrollToBottom.
Definition console_error (msg : jsstring) (err : exn) : async unit :=
  emit (ConsoleError msg err).

(** [await fetch("/api/chat", { method: "POST", ..., body })]: the request
    leaves at once, the handler resumes when it is settled. *)
Definition fetch (req : request) : async response_t :=
  emit (Fetch req) ;;
  AwaitFetch (fun o => match o with
                       | Rejects => throw NetworkFailure
                       | Resolves res => ret res
                       end).

(** [await res.json()]. *)
Definition json (res : response_t) : async data :=
  emit ReadJson ;;
  AwaitJson res (fun b => match b with
                          | Some d => ret d
                          | None => throw SyntaxError
                          end).

(** *** Running a handler *)

Inductive result (A : Type) : Type :=
| Ok (a : A)
| Throw (e : exn).
Arguments Ok {A} a.
Arguments Throw {A} e.

(** One handler run from the submit to its end, alone on the page, against
    the outcome [net] of its request: how it ends, the page it leaves and
    the effects in order. *)
Fixpoint run {A} (net : outcome) (m : async A) (w : widget)
  : result A * widget * list event :=
  match m with
  | Ret a => (Ok a, w, [])
  | Raise e => (Throw e, w, [])
  | Do e k => let '(r, w', t) := run net k (perform e w) in (r, w', e :: t)
  | Read f k => run net (k (f w)) w
  | AwaitFetch k => run net (k net) w
  | AwaitJson res k => run net (k (body res)) w
  end.

Definition outcome_of {X} (x : X * widget * list event) : X := fst (fst x).
Definition state_of {X} (x : X * widget * list event) : widget := snd (fst x).
Definition trace_of {X} (x : X * widget * list event) : list event := snd x.

(** The synchronous stretch of a handler up to its next [await] or its
    end: what is left of it, the page and the effects. *)
Fixpoint advance {A} (m : async A) (w : widget) : async A * widget * list event :=
  match m with
  | Do e k => let '(m', w', t) := advance k (perform e w) in (m', w', e :: t)
  | Read f k => advance (k (f w)) w
  | _ => (m, w, [])
  end.

(** A handler that awaits stays on the page; one that has ended is gone. *)
Definition park {A} (m : async A) : list (async A) :=
  match m with
  | AwaitFetch _ | AwaitJson _ _ => [m]
  | _ => []
  end.

End Widget.
Import Widget.
Local Open Scope widget_scope.

(** ** Text constants of the sources *)

Module Texts.

Definition robot : jsstring := [55358; 56598]%N.   (* U+1F916 *)
Definition person : jsstring := [55357; 56420]%N.  (* U+1F464 *)
Definition sending : jsstring := str "Enviando...".
Definition network_error : jsstring := str "Error de red".
(* "Algo sali\u00f3 mal" *)
Definition went_wrong : jsstring := str "Algo sali" ++ [243%N] ++ str " mal".
(* "No se pudo conectar con el servidor. \u00bfEst\u00e1 corriendo tu backend?" *)
Definition unreachable : jsstring :=
  str "No se pudo conectar con el servidor. " ++ [191%N] ++ str "Est" ++ [225%N]
  ++ str " corriendo tu backend?".
Definition request_failed : jsstring := str "Error en la solicitud:".
Definition Usuario : jsstring := str "Usuario".
Definition Bot : jsstring := str "Bot".
Definition user : jsstring := str "user".
Definition bot : jsstring := str "bot".

End Texts.
Import Texts.

(** ** [static/app.js] *)

Module StaticApp.

Definition addMessage (sender : jsstring) (text : jsval) : async unit :=
  let messageDiv := createElement (str "div") in
  let messageDiv := set_className (str "message " ++ sender) messageDiv in
  let avatar := createElement (str "div") in
  let avatar := set_className (str "message-avatar") avatar in
  let avatar :=
    set_textContent (Str (if eqb sender bot then robot else person)) avatar in
  let content := createElement (str "div") in
  let content := set_className (str "message-content") content in
  let content := set_innerHTML (escapeHtml text) content in
  let messageDiv := appendChild (if eqb sender bot then avatar else content) messageDiv in
  let messageDiv := appendChild (if eqb sender bot then content else avatar) messageDiv in
  chatBox_appendChild messageDiv ;;
  scrollToBottom.

Definition submit : async unit :=
  preventDefault ;;
  v <- gets value ;;
  let text := trim v in
  match text with
  | [] => ret tt
  | _ =>
    addMessage user (Str text) ;;
    set_value [] ;;
    set_disabled true ;;
    originalText <- gets label ;;
    set_label sending ;;
    try_catch_finally
      (history <- gets history ;;
       res <- fetch {| message := text; sent_history := history |} ;;
       if negb (ok res) then throw (Error network_error)
       else
         data <- json res ;;
         if success data then
           addMessage bot (response data) ;;
           push {| sender := Usuario; text := Str text |} ;;
           push {| sender := Bot; text := response data |}
         else
           addMessage bot
             (Str (str "Error: " ++ toString (logical_or (error data) (Str went_wrong)))))
      (fun err =>
         addMessage bot (Str unreachable) ;;
         console_error request_failed err)
      (set_disabled false ;;
       set_label originalText ;;
       focus_input)
  end.

End StaticApp.

(** ** The Markdown variant *)

Module MarkdownApp.

(** The call [markdownToHtml(text)]: [text.replace] on a missing value is a
    [TypeError]. *)
Definition call_markdownToHtml (text : jsval) : async jsstring :=
  match text with
  | Str s => ret (markdownToHtml s)
  | Undefined => throw TypeError
  end.

Definition addMessage (sender : jsstring) (text : jsval) : async unit :=
  let messageDiv := createElement (str "div") in
  let messageDiv := set_className (str "message " ++ sender) messageDiv in
  let avatar := createElement (str "div") in
  let avatar := set_className (str "message-avatar") avatar in
  let avatar :=
    set_textContent (Str (if eqb sender bot then robot else person)) avatar in
  let content := createElement (str "div") in
  let content := set_className (str "message-content") content in
  content <-
    (if eqb sender bot then
       html <- call_markdownToHtml text ;;
       ret (set_innerHTML html content)
     else
       ret (set_textContent text content)) ;;
  let messageDiv :=
    if eqb sender bot then appendChild content (appendChild avatar messageDiv)
    else appendChild avatar (appendChild content messageDiv) in
  chatBox_appendChild messageDiv ;;
  scrollToBottom.

Definition submit : async unit :=
  preventDefault ;;
  v <- gets value ;;
  let text := trim v in
  match text with
  | [] => ret tt
  | _ =>
    addMessage user (Str text) ;;
    set_value [] ;;
    set_disabled true ;;
    originalText <- gets label ;;
    set_label sending ;;
    try_catch_finally
      (history <- gets history ;;
       res <- fetch {| message := text; sent_history := history |} ;;
       if negb (ok res) then throw (Error network_error)
       else
         data <- json res ;;
         if success data then
           addMessage bot (response data) ;;
           push {| sender := Usuario; text := Str text |} ;;
           push {| sender := Bot; text := response data |}
         else
           addMessage bot
             (Str (str "Error: " ++ toString (logical_or (error data) (Str went_wrong)))))
      (fun err =>
         addMessage bot (Str unreachable) ;;
         console_error request_failed err)
      (set_disabled false ;;
       set_label originalText ;;
       focus_input)
  end.

End MarkdownApp.

(** ** The early variant *)

Module EarlyApp.

(* `<div><strong>T\u00fa:</strong> ${text}</div>` *)
Definition user_markup (text : jsstring) : jsstring :=
  str "<div><strong>T" ++ [250%N] ++ str ":</strong> " ++ text ++ str "</div>".

(* `<div><strong>Bot:</strong> ${data.response}</div>` *)
Definition bot_markup (response : jsval) : jsstring :=
  str "<div><strong>Bot:</strong> " ++ toString response ++ str "</div>".

(* `<div style="color:red;">Error: ${data.error}</div>` *)
Definition error_markup (error : jsval) : jsstring :=
  str "<div style=" ++ [QUOT] ++ str "color:red;" ++ [QUOT] ++ str ">Error: "
  ++ toString error ++ str "</div>".

Definition submit : async unit :=
  preventDefault ;;
  v <- gets value ;;
  let text := trim v in
  match text with
  | [] => ret tt
  | _ =>
    chatBox_appendMarkup (user_markup text) ;;
    history <- gets history ;;
    res <- fetch {| message := text; sent_history := history |} ;;
    data <- json res ;;
    (if success data then
       chatBox_appendMarkup (bot_markup (response data)) ;;
       push {| sender := Usuario; text := Str text |} ;;
       push {| sender := Bot; text := response data |}
     else
       chatBox_appendMarkup (error_markup (error data))) ;;
    set_value [] ;;
    scrollToBottom
  end.

End EarlyApp.

(** ** The three variants side by side *)

Inductive variant : Type := Static | Markdown | Early.

Definition submit (v : variant) : async unit :=
  match v with
  | Static => StaticApp.submit
  | Markdown => MarkdownApp.submit
  | Early => EarlyApp.submit
  end.

(** ** The event loop *)

(** The user has typed [s] into the input. *)
Definition typed (s : jsstring) (w : widget) : widget :=
  {| history := history w; value := s; disabled := disabled w;
     activeElement := OnInput; label := label w; chatBox := chatBox w |}.

(** The user has clicked the submit button, which takes the focus. *)
Definition clicked (w : widget) : widget :=
  {| history := history w; value := value w; disabled := disabled w;
     activeElement := OnButton; label := label w; chatBox := chatBox w |}.

(** The page between two tasks of the event loop: the widget and the
    handlers that are suspended at an [await]. *)
Record page := { dom : widget; waiting : list (async unit) }.

Definition loaded (caption : jsstring) : page :=
  {| dom := page_load caption; waiting := [] |}.

(** One task of the event loop: the user types into the input or clicks
    the button, a submit event arrives, or the promise that the [i]-th
    waiting handler awaits is settled ([net] is the fate of a request; the
    body of a response is read off the response itself). *)
Inductive task : Type :=
| UserTypes (s : jsstring)
| UserClicks
| SubmitEvent
| Settles (i : nat) (net : outcome).

(** A submit event runs the handler up to its first [await]; a settled
    promise resumes its handler up to the next [await] or to the end.
    Handlers of several submits may wait at the same time and resume in any
    order.  A disabled input takes no typing, and settling a handler that
    is not there does nothing. *)
Definition run_task (v : variant) (a : task) (p : page) : page :=
  match a with
  | UserTypes s =>
      if disabled (dom p) then p
      else {| dom := typed s (dom p); waiting := waiting p |}
  | UserClicks => {| dom := clicked (dom p); waiting := waiting p |}
  | SubmitEvent =>
      let r := advance (submit v) (dom p) in
      {| dom := state_of r; waiting := waiting p ++ park (outcome_of r) |}
  | Settles i net =>
      match nth_error (waiting p) i with
      | Some (AwaitFetch k) =>
          let r := advance (k net) (dom p) in
          {| dom := state_of r;
             waiting := firstn i (waiting p) ++ park (outcome_of r)
                        ++ skipn (S i) (waiting p) |}
      | Some (AwaitJson res k) =>
          let r := advance (k (body res)) (dom p) in
          {| dom := state_of r;
             waiting := firstn i (waiting p) ++ park (outcome_of r)
                        ++ skipn (S i) (waiting p) |}
      | _ => p
      end
  end.

(** The page after a schedule of tasks. *)
Definition play (v : variant) (schedule : list task) (p : page) : page :=
  fold_left (fun q a => run_task v a q) schedule p.

(** The pages the widget can be in. *)
Definition reachable (v : variant) (caption : jsstring) (p : page) : Prop :=
  exists schedule, p = play v schedule (loaded caption).

(** * Vocabulary of the properties *)

(** ** Matchers *)

(** A matcher that consults its continuation only at states between its
    start state and the end of the input. *)
Definition forward (input : jsstring)
           (m : mstate -> continuation -> option mstate) : Prop :=
  forall x c c',
    endIndex x <= List.length input ->
    (forall y, endIndex x <= endIndex y <= List.length input -> c y = c' y) ->
    m x c = m x c'.

(** A successful match ends where some call of the continuation
    succeeded, at or after the start. *)
Definition reaches (input : jsstring)
           (m : mstate -> continuation -> option mstate) : Prop :=
  forall x c y,
    endIndex x <= List.length input ->
    m x c = Some y ->
    exists z, endIndex x <= endIndex z <= List.length input /\ c z = Some y.

(** ** Sample inputs and predicates on strings *)

Definition sample_markdown : jsstring :=
  str "### Title" ++ [LF] ++ str "**bold** text" ++ [LF]
  ++ str "* item1" ++ [LF] ++ str "* item2".

Definition sample_html : jsstring :=
  str "<p><h3>Title</h3><strong>bold</strong> text<br>"
  ++ str "<ul><li>item1</li><li>item2</li></ul></p>".

Definition isReference (rest : jsstring) : bool :=
  startsWith (str "amp;") rest || startsWith (str "nbsp;") rest
  || startsWith (str "lt;") rest || startsWith (str "gt;") rest.

(** Every ampersand of the string starts one of the four character
    references. *)
Fixpoint ampersandsEncoded (markup : jsstring) : bool :=
  match markup with
  | [] => true
  | c :: rest =>
      (if (c =? AMP)%N then isReference rest else true) && ampersandsEncoded rest
  end.

Definition has (c : N) (s : jsstring) : bool := existsb (N.eqb c) s.

(** ** Bubbles, traces and handlers *)

(** The markup strings inside a node that were assigned through
    [innerHTML], and the strings that were assigned as text. *)
Fixpoint markup_of (n : node) : list jsstring :=
  match n with
  | Text _ => []
  | Parsed markup => [markup]
  | Elem _ _ kids => flat_map markup_of kids
  end.

Fixpoint texts_of (n : node) : list jsstring :=
  match n with
  | Text data => [data]
  | Parsed _ => []
  | Elem _ _ kids => flat_map texts_of kids
  end.

Definition parsed_by (e : event) : list jsstring :=
  match e with
  | AppendChild bubble => markup_of bubble
  | AppendMarkup markup => [markup]
  | _ => []
  end.

(** All markup a run hands to the parser, in order. *)
Definition parsed (t : list event) : list jsstring := flat_map parsed_by t.

Definition img_payload : jsstring := str "<img src=x onerror=alert(1)>".

(** A 2xx response whose body says [success: true]. *)
Definition replies (r : jsval) : outcome :=
  Resolves {| ok := true;
              body := Some {| success := true; response := r; error := Undefined |} |}.

(** Running what is left after a synchronous stretch. *)
Definition finish {A} (net : outcome) (x : async A * widget * list event)
  : result A * widget * list event :=
  let '(m, w, t) := x in
  let '(r, w', t') := run net m w in (r, w', t ++ t').

(** The turns pushed during a run, in order. *)
Definition pushes (t : list event) : list turn :=
  flat_map (fun e => match e with Push t => [t] | _ => [] end) t.

(** The exception a run ended with or, when the handler catches it, the
    one its [catch] block logged. *)
Fixpoint caught (t : list event) : option exn :=
  match t with
  | [] => None
  | ConsoleError _ err :: _ => Some err
  | _ :: t' => caught t'
  end.

Definition thrown {A} (x : result A * widget * list event) : option exn :=
  match outcome_of x with
  | Throw e => Some e
  | Ok _ => caught (trace_of x)
  end.

(** The response was parsed and says [success: false]. *)
Definition flagged (net : outcome) : bool :=
  match net with
  | Resolves res =>
      match body res with
      | Some d => negb (success d)
      | None => false
      end
  | Rejects => false
  end.

(** The exchange failed, read off what the network delivered: the request
    was rejected, the status is not 2xx, the body does not parse, or the
    parsed response says [success: false]. *)
Definition failed (net : outcome) : bool :=
  match net with
  | Rejects => true
  | Resolves res =>
      negb (ok res)
      || match body res with
         | Some d => negb (success d)
         | None => true
         end
  end.

(** Whether the handler has the line [if (!res.ok) throw ...]. *)
Definition checks_status (v : variant) : bool :=
  match v with Early => false | _ => true end.

(** Index of the first event of a trace that satisfies [p]. *)
Fixpoint position (p : event -> bool) (t : list event) : option nat :=
  match t with
  | [] => None
  | e :: t' => if p e then Some 0 else option_map S (position p t')
  end.

Definition is_bubble (e : event) : bool :=
  match e with AppendChild _ | AppendMarkup _ => true | _ => false end.

Definition is_clear (e : event) : bool :=
  match e with SetValue [] => true | _ => false end.

Definition is_fetch (e : event) : bool :=
  match e with Fetch _ => true | _ => false end.

Definition is_push (e : event) : bool :=
  match e with Push _ => true | _ => false end.

(** Handlers whose pushes come in user/bot pairs with no [await] and no
    other effect in between. *)
Inductive pairs_only {A : Type} : async A -> Prop :=
| po_ret a : pairs_only (Ret a)
| po_raise e : pairs_only (Raise e)
| po_do e k : is_push e = false -> pairs_only k -> pairs_only (Do e k)
| po_pair a b k :
    pairs_only k ->
    pairs_only (Do (Push {| sender := Usuario; text := a |})
                   (Do (Push {| sender := Bot; text := b |}) k))
| po_read B (f : widget -> B) k :
    (forall b, pairs_only (k b)) -> pairs_only (Read f k)
| po_fetch k : (forall o, pairs_only (k o)) -> pairs_only (AwaitFetch k)
| po_json res k : (forall d, pairs_only (k d)) -> pairs_only (AwaitJson res k).

(** Histories made of user/bot pairs. *)
Inductive paired : list turn -> Prop :=
| paired_nil : paired []
| paired_snoc h a b :
    paired h ->
    paired (h ++ [ {| sender := Usuario; text := a |}; {| sender := Bot; text := b |} ]).

(** ** Further vocabulary *)

(** The requests a run sends, in order. *)
Definition requests (t : list event) : list request :=
  flat_map (fun e => match e with Fetch req => [req] | _ => [] end) t.

(** What an assignment to [innerHTML] hands to the parser. *)
Definition assigned (markup : jsstring) : list jsstring :=
  match markup with
  | [] => []
  | _ => [markup]
  end.


(** Effects that leave the input's value and its disabled flag alone. *)
Definition keeps_input (e : event) : bool :=
  match e with
  | SetValue _ | SetDisabled _ => false
  | _ => true
  end.

(** Handlers that await nothing any more. *)
Inductive winding_up {A : Type} : async A -> Prop :=
| wu_ret a : winding_up (Ret a)
| wu_raise e : winding_up (Raise e)
| wu_do e k : winding_up k -> winding_up (Do e k)
| wu_read B (f : widget -> B) k : (forall b, winding_up (k b)) -> winding_up (Read f k).

(** Handlers that leave the input alone as long as they still await
    something: they enable it again only on their way out. *)
Inductive holds_input {A : Type} : async A -> Prop :=
| hi_ret a : holds_input (Ret a)
| hi_raise e : holds_input (Raise e)
| hi_do e k : keeps_input e = true -> holds_input k -> holds_input (Do e k)
| hi_release k : winding_up k -> holds_input (Do (SetDisabled false) k)
| hi_read B (f : widget -> B) k :
    (forall b, holds_input (k b)) -> holds_input (Read f k)
| hi_fetch k : (forall o, holds_input (k o)) -> holds_input (AwaitFetch k)
| hi_json res k : (forall d, holds_input (k d)) -> holds_input (AwaitJson res k).

(** The page is idle, or one handler waits and the input is empty and
    disabled. *)
Definition one_in_flight (p : page) : Prop :=
  waiting p = []
  \/ exists m, waiting p = [m] /\ holds_input m
               /\ value (dom p) = [] /\ disabled (dom p) = true.

(** What the replacement of every [c] by [template] does to one code
    unit. *)
Definition swap_char (c : N) (template : jsstring) (x : N) : jsstring :=
  if (c =? x)%N then template else [x].

(** * Properties *)

(** ** Strings *)

Lemma eqb_eq a b : eqb a b = true <-> a = b.
Proof.
  revert b; induction a as [|x a IH]; intros [|y b]; simpl; split;
    try congruence; try reflexivity.
  - intros H. apply andb_true_iff in H as [H1 H2].
    apply N.eqb_eq in H1. apply IH in H2. congruence.
  - intros H. injection H as -> ->. rewrite N.eqb_refl. simpl. now apply IH.
Qed.

(** ** The bounds of the matcher *)

Section Fuel.
Variable input : jsstring.
Variable fl : flags.

Lemma endIndex_clear gs x : endIndex (clear gs x) = endIndex x.
Proof. reflexivity. Qed.

Lemma repeatMatcher_forward m gs greedy :
  forward input m ->
  forall n min, forward input (fun x c => repeatMatcher m gs greedy n min x c).
Proof.
  intros Hm n. induction n as [|n IH]; intros min x c c' Hx Hc.
  - destruct min; [apply Hc; lia | reflexivity].
  - cbn [repeatMatcher]. destruct min as [|min'].
    + rewrite (Hc x) by lia.
      rewrite (Hm (clear gs x) _
                  (fun y => if endIndex y =? endIndex x then None
                            else repeatMatcher m gs greedy n 0 y c'));
        [reflexivity|exact Hx|].
      intros y Hy. rewrite endIndex_clear in Hy.
      destruct (endIndex y =? endIndex x); [reflexivity|].
      apply IH; [lia | intros z Hz; apply Hc; lia].
    + apply Hm; [exact Hx|].
      intros y Hy. rewrite endIndex_clear in Hy.
      apply IH; [lia | intros z Hz; apply Hc; lia].
Qed.

Lemma charset_forward p : forward input (charset input p).
Proof.
  intros x c c' Hx Hc. unfold charset.
  destruct (nth_error input (endIndex x)) as [ch|] eqn:E; [|reflexivity].
  destruct (p ch); [|reflexivity].
  assert (endIndex x < List.length input) by (apply nth_error_Some; congruence).
  apply Hc. cbn. lia.
Qed.

Lemma matcher_forward r : forward input (matcher input fl r).
Proof.
  induction r
    as [| ch | | | | | r1 IH1 r2 IH2 | r1 IH1 r2 IH2 | i r IH | min greedy r IH];
    intros x c c' Hx Hc; cbn [matcher].
  - apply Hc; lia.
  - now apply charset_forward.
  - now apply charset_forward.
  - now apply charset_forward.
  - destruct (at_bol input fl (endIndex x)); [apply Hc; lia | reflexivity].
  - destruct (at_eol input fl (endIndex x)); [apply Hc; lia | reflexivity].
  - apply IH1; [assumption|]. intros y Hy. apply IH2; [lia|].
    intros z Hz. apply Hc. lia.
  - rewrite (IH1 x c c'), (IH2 x c c') by assumption. reflexivity.
  - apply IH; [assumption|]. intros y Hy. apply Hc. cbn. lia.
  - now apply repeatMatcher_forward.
Qed.

(** One more unit of fuel than [min + length input - endIndex x] changes
    nothing. *)
Lemma repeatMatcher_fuel m gs greedy :
  forward input m ->
  forall n min x c,
    endIndex x <= List.length input ->
    min + (List.length input - endIndex x) < n ->
    repeatMatcher m gs greedy n min x c = repeatMatcher m gs greedy (S n) min x c.
Proof.
  intros Hm n. induction n as [|n IH]; intros min x c Hx Hn; [lia|].
  cbn [repeatMatcher]. destruct min as [|min'].
  - rewrite (Hm (clear gs x) _
                (fun y => if endIndex y =? endIndex x then None
                          else repeatMatcher m gs greedy (S n) 0 y c));
      [reflexivity|exact Hx|].
    intros y Hy. rewrite endIndex_clear in Hy.
    destruct (Nat.eqb_spec (endIndex y) (endIndex x)); [reflexivity|].
    apply IH; lia.
  - apply Hm; [exact Hx|].
    intros y Hy. rewrite endIndex_clear in Hy. apply IH; lia.
Qed.

Theorem repeat_fuel_suffices min greedy r x c k :
  endIndex x <= List.length input ->
  repeatMatcher (matcher input fl r) (groups r) greedy
                (k + S (min + List.length input)) min x c
  = matcher input fl (Repeat min greedy r) x c.
Proof.
  intros Hx. cbn [matcher]. induction k as [|k IH]; [reflexivity|].
  rewrite <- IH. cbn [Nat.add]. symmetry.
  apply repeatMatcher_fuel; [apply matcher_forward | assumption | lia].
Qed.

Lemma repeatMatcher_reaches m gs greedy :
  reaches input m ->
  forall n min, reaches input (fun x c => repeatMatcher m gs greedy n min x c).
Proof.
  intros Hm n. induction n as [|n IH]; intros min x c y Hx H.
  - destruct min; [|discriminate]. exists x. split; [lia|exact H].
  - cbn [repeatMatcher] in H.
    assert (Hiter : forall d,
               (forall z, d z = match min with
                                | 0 => if endIndex z =? endIndex x then None
                                       else repeatMatcher m gs greedy n 0 z c
                                | S min' => repeatMatcher m gs greedy n min' z c
                                end) ->
               m (clear gs x) d = Some y ->
               exists z, endIndex x <= endIndex z <= List.length input /\ c z = Some y).
    { intros d Hd Hy. apply Hm in Hy; [|exact Hx].
      destruct Hy as (z & Hz & Hdz). rewrite endIndex_clear in Hz. rewrite Hd in Hdz.
      destruct min; [destruct (endIndex z =? endIndex x); [discriminate|]|];
        (apply IH in Hdz; [|lia]); destruct Hdz as (z' & Hz' & Hc);
        exists z'; (split; [lia|exact Hc]). }
    destruct min as [|min'].
    + destruct greedy.
      * destruct (m (clear gs x) _) eqn:E.
        -- injection H as <-. eapply Hiter; [|exact E]. reflexivity.
        -- exists x. split; [lia|exact H].
      * destruct (c x) eqn:E.
        -- injection H as <-. exists x. split; [lia|exact E].
        -- eapply Hiter; [|exact H]. reflexivity.
    + eapply Hiter; [|exact H]. reflexivity.
Qed.

Lemma charset_reaches p : reaches input (charset input p).
Proof.
  intros x c y Hx H. unfold charset in H.
  destruct (nth_error input (endIndex x)) as [ch|] eqn:E; [|discriminate].
  destruct (p ch); [|discriminate].
  assert (endIndex x < List.length input) by (apply nth_error_Some; congruence).
  exists (consume x). split; [cbn; lia|exact H].
Qed.

Lemma matcher_reaches r : reaches input (matcher input fl r).
Proof.
  induction r
    as [| ch | | | | | r1 IH1 r2 IH2 | r1 IH1 r2 IH2 | i r IH | min greedy r IH];
    intros x c y Hx H; cbn [matcher] in H.
  - exists x. split; [lia|exact H].
  - now apply charset_reaches in H.
  - now apply charset_reaches in H.
  - now apply charset_reaches in H.
  - destruct (at_bol input fl (endIndex x)); [|discriminate].
    exists x. split; [lia|exact H].
  - destruct (at_eol input fl (endIndex x)); [|discriminate].
    exists x. split; [lia|exact H].
  - apply IH1 in H; [|exact Hx]. destruct H as (z & Hz & H).
    apply IH2 in H; [|lia]. destruct H as (z' & Hz' & H).
    exists z'. split; [lia|exact H].
  - destruct (matcher input fl r1 x c) eqn:E.
    + injection H as <-. now apply IH1 in E.
    + now apply IH2 in H.
  - apply IH in H; [|exact Hx]. destruct H as (z & Hz & H).
    eexists. split; [|exact H]. cbn. lia.
  - eapply (repeatMatcher_reaches (m := matcher input fl r)); eassumption.
Qed.

(** What [exec] finds lies between [lastIndex] and the end of the input. *)
Lemma execFrom_bounds r k i p y :
  execFrom input fl r k i = Some (p, y) ->
  i + k <= S (List.length input) ->
  i <= p <= endIndex y /\ endIndex y <= List.length input.
Proof.
  revert i. induction k as [|k IH]; intros i H Hk; [discriminate|].
  cbn [execFrom] in H. destruct (matchAt input fl r i) eqn:E.
  - injection H as <- <-. unfold matchAt in E.
    apply matcher_reaches in E; [|cbn; lia].
    destruct E as (z & Hz & Hy). injection Hy as <-. cbn in Hz. lia.
  - apply IH in H; lia.
Qed.

Lemma exec_bounds r i p y :
  exec input fl r i = Some (p, y) ->
  i <= p <= endIndex y /\ endIndex y <= List.length input.
Proof.
  unfold exec. intros H.
  destruct (Nat.le_gt_cases i (List.length input)) as [Hi|Hi].
  - apply execFrom_bounds in H; lia.
  - replace (S (List.length input) - i) with 0 in H by lia. discriminate.
Qed.

(** More rounds than there are indices left find no further match. *)
Lemma collect_fuel r k i :
  S (List.length input) - i < k ->
  collect input fl r k i = collect input fl r (S k) i.
Proof.
  revert i. induction k as [|k IH]; intros i Hk; [lia|].
  cbn [collect]. destruct (exec input fl r i) as [[p y]|] eqn:E; [|reflexivity].
  apply exec_bounds in E. f_equal. apply IH.
  destruct (Nat.eqb_spec (endIndex y) p); lia.
Qed.

Theorem collect_fuel_suffices r k :
  collect input fl r (k + S (S (List.length input))) 0
  = collect input fl r (S (S (List.length input))) 0.
Proof.
  induction k as [|k IH]; [reflexivity|].
  rewrite <- IH. cbn [Nat.add]. symmetry. apply collect_fuel. lia.
Qed.

End Fuel.

(** ** The converter on the sample document *)

(** The passes one after the other on the sample. *)
Example sample_after_headings :
  replace re_heading flags_g (str "<h3>$1</h3>") sample_markdown
  = str "<h3>Title</h3>**bold** text" ++ [LF] ++ str "* item1" ++ [LF] ++ str "* item2".
Proof. vm_compute. reflexivity. Qed.

Example sample_after_items :
  replace re_item flags_gm (str "<li>$1</li>")
    (str "<h3>Title</h3><strong>bold</strong> text" ++ [LF]
     ++ str "* item1" ++ [LF] ++ str "* item2")
  = str "<h3>Title</h3><strong>bold</strong> text" ++ [LF]
    ++ str "<li>item1</li><li>item2</li>".
Proof. vm_compute. reflexivity. Qed.

Example empty_document : markdownToHtml [] = [].
Proof. vm_compute. reflexivity. Qed.

(** C6: on the sample document the converter yields one list block with
    the two items, the heading element and the bold element, the whole
    wrapped in one paragraph and with no empty paragraph left. *)
Theorem markdown_sample_document :
  let out := markdownToHtml sample_markdown in
  out = sample_html
  /\ occurrences (str "<ul>") out = 1
  /\ occurrences (str "</ul>") out = 1
  /\ occurrences (str "<li>") out = 2
  /\ includes (str "<ul><li>item1</li><li>item2</li></ul>") out = true
  /\ includes (str "<h3>Title</h3>") out = true
  /\ includes (str "<strong>bold</strong>") out = true
  /\ startsWith (str "<p>") out = true
  /\ endsWith (str "</p>") out = true
  /\ includes (str "<p></p>") out = false.
Proof. vm_compute. repeat split. Qed.

(** ** Text the converter leaves alone *)

Section NoMatch.
Variable input : jsstring.
Variable fl : flags.

(** A run of literal characters matches where the input continues with
    them. *)
Lemma matcher_lit s x c :
  matcher input fl (lit s) x c
  = if startsWith s (skipn (endIndex x) input)
    then c {| endIndex := endIndex x + List.length s; captures := captures x |}
    else None.
Proof.
  revert x. induction s as [|a s IH]; intros x.
  - cbn. rewrite Nat.add_0_r. now destruct x.
  - assert (Hc : forall k,
               charset input (N.eqb a) x k
               = match skipn (endIndex x) input with
                 | b :: _ => if (a =? b)%N then k (consume x) else None
                 | [] => None
                 end).
    { intros k. unfold charset.
      rewrite <- (firstn_skipn (endIndex x) input) at 1.
      destruct (Nat.le_gt_cases (List.length input) (endIndex x)) as [Hl|Hl].
      - rewrite skipn_all2 by assumption. rewrite app_nil_r.
        rewrite (proj2 (nth_error_None _ _)); [reflexivity|].
        rewrite length_firstn. lia.
      - rewrite nth_error_app2 by (rewrite length_firstn; lia).
        rewrite length_firstn, Nat.min_l, Nat.sub_diag by lia.
        destruct (skipn (endIndex x) input); reflexivity. }
    destruct s as [|a' s'].
    + cbn [lit matcher]. rewrite Hc. cbn [startsWith].
      destruct (skipn (endIndex x) input) as [|b rest]; [reflexivity|].
      destruct (a =? b)%N; [|reflexivity]. cbn.
      unfold consume. now rewrite Nat.add_1_r.
    + change (lit (a :: a' :: s')) with (Seq (Chr a) (lit (a' :: s'))).
      cbn [matcher]. rewrite Hc.
      change (startsWith (a :: a' :: s') (skipn (endIndex x) input))
        with (match skipn (endIndex x) input with
              | b :: rest => (a =? b)%N && startsWith (a' :: s') rest
              | [] => false
              end).
      destruct (skipn (endIndex x) input) as [|b rest] eqn:E; [reflexivity|].
      destruct (a =? b)%N; [|reflexivity]. rewrite IH. cbn [consume endIndex captures andb].
      replace (skipn (S (endIndex x)) input) with rest.
      * destruct (startsWith (a' :: s') rest); [|reflexivity].
        do 2 f_equal. cbn [List.length]. lia.
      * change (S (endIndex x)) with (1 + endIndex x).
        rewrite <- skipn_skipn, E. reflexivity.
Qed.

End NoMatch.

Section Replace.
Variable input : jsstring.
Variable fl : flags.
Variable r : regex.

(** Where the pattern matches nowhere, [exec] finds nothing and [replace]
    returns its input. *)
Lemma execFrom_none k i :
  (forall j, i <= j -> matchAt input fl r j = None) ->
  execFrom input fl r k i = None.
Proof.
  revert i. induction k as [|k IH]; intros i H; [reflexivity|].
  cbn [execFrom]. rewrite H by lia. apply IH. intros j Hj. apply H. lia.
Qed.

Lemma replace_none template :
  global fl = true ->
  (forall j, matchAt input fl r j = None) ->
  replace r fl template input = input.
Proof.
  intros G H. unfold replace, results. rewrite G. cbn [collect].
  unfold exec. rewrite execFrom_none by (intros j _; apply H). reflexivity.
Qed.

(** The first match is at [p] when the pattern fails at the indices from
    [i] up to [p]. *)
Lemma execFrom_first k i p y :
  (forall j, i <= j < p -> matchAt input fl r j = None) ->
  matchAt input fl r p = Some y ->
  i <= p -> p < i + k ->
  execFrom input fl r k i = Some (p, y).
Proof.
  revert i. induction k as [|k IH]; intros i Hn Hp Hi Hk; [lia|].
  cbn [execFrom]. destruct (Nat.eq_dec i p) as [->|Hne].
  - now rewrite Hp.
  - rewrite Hn by lia. apply IH; try assumption; try lia.
    intros j Hj. apply Hn. lia.
Qed.

End Replace.

(** A template without [$] is inserted as it is. *)
Lemma getSubstitution_plain input r p y template :
  has DOLLAR template = false ->
  getSubstitution input r p y template = template.
Proof.
  unfold has. induction template as [|d t IH]; intros H; [reflexivity|].
  cbn [existsb] in H. apply orb_false_iff in H as [Hd Ht].
  cbn [getSubstitution]. rewrite N.eqb_sym in Hd. rewrite Hd. cbn [negb].
  now rewrite IH.
Qed.

Section Plain.
Variable input : jsstring.

Lemma skipn_In {A} i (l : list A) x : In x (skipn i l) -> In x l.
Proof.
  intros H. rewrite <- (firstn_skipn i l). apply in_or_app. now right.
Qed.

Lemma has_false_In c s : has c s = false -> ~ In c s.
Proof.
  unfold has. intros H Hin.
  assert (E : existsb (N.eqb c) s = true).
  { apply existsb_exists. exists c. split; [exact Hin|apply N.eqb_refl]. }
  congruence.
Qed.

Lemma startsWith_absent a s i :
  has a input = false -> startsWith (a :: s) (skipn i input) = false.
Proof.
  intros H. destruct (skipn i input) as [|b rest] eqn:E; [reflexivity|].
  cbn [startsWith]. destruct (N.eqb_spec a b) as [->|]; [|reflexivity].
  exfalso. apply (has_false_In _ _ H). apply (skipn_In i). rewrite E. now left.
Qed.

Lemma charset_absent a x c :
  has a input = false -> charset input (N.eqb a) x c = None.
Proof.
  intros H. unfold charset.
  destruct (nth_error input (endIndex x)) as [b|] eqn:E; [|reflexivity].
  destruct (N.eqb_spec a b) as [->|]; [|reflexivity].
  exfalso. apply (has_false_In _ _ H). eapply nth_error_In. exact E.
Qed.

Lemma startsWith_not_included p i :
  includes p input = false -> startsWith p (skipn i input) = false.
Proof.
  revert i. induction input as [|b rest IH]; intros i H.
  - cbn in H. rewrite orb_false_r in H. now destruct i.
  - cbn [includes] in H. apply orb_false_iff in H as [H1 H2].
    destruct i as [|i]; [exact H1|]. cbn [skipn]. now apply IH.
Qed.

Lemma heading_nowhere j :
  has 35%N input = false -> matchAt input flags_g re_heading j = None.
Proof.
  intros H. unfold matchAt, re_heading. cbn [seq matcher]. rewrite matcher_lit.
  cbn [endIndex]. change (str "###") with (35%N :: str "##").
  now rewrite startsWith_absent.
Qed.

Lemma bold_nowhere j :
  has 42%N input = false -> matchAt input flags_g re_bold j = None.
Proof.
  intros H. unfold matchAt, re_bold. cbn [seq matcher]. rewrite matcher_lit.
  cbn [endIndex]. change (str "**") with (42%N :: str "*").
  now rewrite startsWith_absent.
Qed.

Lemma item_nowhere j :
  has 42%N input = false -> matchAt input flags_gm re_item j = None.
Proof.
  intros H. unfold matchAt, re_item. cbn [seq matcher].
  destruct (at_bol input flags_gm _); [|reflexivity]. now apply charset_absent.
Qed.

Lemma list_nowhere j :
  includes (str "<li>") input = false -> matchAt input flags_gs re_list j = None.
Proof.
  intros H. unfold matchAt, re_list. cbn [seq matcher repeatMatcher Nat.add].
  rewrite matcher_lit. now rewrite startsWith_not_included.
Qed.

Lemma lit_nowhere fl p j :
  includes p input = false -> matchAt input fl (lit p) j = None.
Proof.
  intros H. unfold matchAt. rewrite matcher_lit. now rewrite startsWith_not_included.
Qed.

Lemma break_nowhere j :
  has LF input = false -> matchAt input flags_g (Chr LF) j = None.
Proof. intros H. unfold matchAt. cbn [matcher]. now apply charset_absent. Qed.

Lemma blank_line_nowhere j :
  has LF input = false -> matchAt input flags_g (lit [LF; LF]) j = None.
Proof.
  intros H. unfold matchAt. rewrite matcher_lit. now rewrite startsWith_absent.
Qed.

(** [s.replace(/^/g, t)] puts [t] in front of [s]. *)
Lemma replace_bol template :
  has DOLLAR template = false ->
  replace Bol flags_g template input = template ++ input.
Proof.
  intros H. unfold replace, results. cbn [global flags_g collect].
  unfold exec at 1. rewrite Nat.sub_0_r. cbn [execFrom matchAt matcher endIndex at_bol].
  change (0 =? 0) with true. cbv iota.
  assert (E : exec input flags_g Bol 1 = None).
  { unfold exec. apply execFrom_none. intros j Hj. unfold matchAt. cbn [matcher endIndex].
    destruct j; [lia|reflexivity]. }
  rewrite E. cbn [splice Nat.leb endIndex].
  now rewrite getSubstitution_plain.
Qed.

(** [s.replace(/$/g, t)] puts [t] behind [s]. *)
Lemma replace_eol template :
  has DOLLAR template = false ->
  replace Eol flags_g template input = input ++ template.
Proof.
  intros H. unfold replace, results. cbn [global flags_g collect].
  set (y := {| endIndex := List.length input;
               captures := repeat None (ncaptures Eol) |}).
  assert (E0 : exec input flags_g Eol 0 = Some (List.length input, y)).
  { unfold exec. rewrite Nat.sub_0_r. apply execFrom_first; try lia.
    - intros j Hj. unfold matchAt. cbn [matcher endIndex]. unfold at_eol.
      cbn [multiline flags_g andb]. rewrite orb_false_r.
      destruct (Nat.eqb_spec j (List.length input)); [lia|reflexivity].
    - unfold matchAt. cbn [matcher endIndex]. unfold at_eol.
      now rewrite Nat.eqb_refl. }
  rewrite E0. cbn [endIndex y]. rewrite Nat.eqb_refl.
  assert (E1 : exec input flags_g Eol (S (List.length input)) = None).
  { unfold exec. now rewrite Nat.sub_diag. }
  rewrite E1. cbn [splice Nat.leb endIndex y].
  unfold substring. rewrite Nat.sub_0_r. cbn [skipn].
  rewrite firstn_all, skipn_all, app_nil_r.
  now rewrite getSubstitution_plain.
Qed.

End Plain.

(** Text without [#], [*], line feed and [<li>] comes out of the converter
    as it went in, between [<p>] and [</p>]: nothing in it is escaped. *)
Theorem markdownToHtml_plain (text : jsstring) :
  has 35%N text = false -> has 42%N text = false -> has LF text = false ->
  includes (str "<li>") text = false ->
  includes (str "<p></p>") (str "<p>" ++ text ++ str "</p>") = false ->
  markdownToHtml text = str "<p>" ++ text ++ str "</p>".
Proof.
  intros Hh Hs Hn Hl Hp. unfold markdownToHtml.
  rewrite (@replace_none text flags_g re_heading)
    by (try reflexivity; intros j; now apply heading_nowhere).
  rewrite (@replace_none text flags_g re_bold)
    by (try reflexivity; intros j; now apply bold_nowhere).
  rewrite (@replace_none text flags_gm re_item)
    by (try reflexivity; intros j; now apply item_nowhere).
  rewrite (@replace_none text flags_gs re_list)
    by (try reflexivity; intros j; now apply list_nowhere).
  rewrite (@replace_none text flags_g (lit [LF; LF]))
    by (try reflexivity; intros j; now apply blank_line_nowhere).
  rewrite (@replace_none text flags_g (Chr LF))
    by (try reflexivity; intros j; now apply break_nowhere).
  rewrite replace_bol by reflexivity.
  rewrite replace_eol by reflexivity.
  rewrite <- app_assoc.
  apply replace_none; [reflexivity|]. intros j. now apply lit_nowhere.
Qed.

(** The bot bubble of the Markdown variant hands such text to the parser as
    it is. *)
Lemma markdown_bot_bubble_plain (text : jsstring) (w : widget) :
  has 35%N text = false -> has 42%N text = false -> has LF text = false ->
  includes (str "<li>") text = false ->
  includes (str "<p></p>") (str "<p>" ++ text ++ str "</p>") = false ->
  parsed (trace_of (advance (MarkdownApp.addMessage bot (Str text)) w))
  = [str "<p>" ++ text ++ str "</p>"].
Proof.
  intros Hh Hs Hn Hl Hp. unfold MarkdownApp.addMessage.
  cbn -[markdownToHtml str]. now rewrite markdownToHtml_plain.
Qed.

(** ** Escaping *)

Lemma escapeHtml_string s : escapeHtml (Str s) = escapeString s.
Proof.
  destruct s as [|c s]; [reflexivity|].
  unfold escapeHtml. cbn [createElement set_textContent innerHTML flat_map serialize].
  now rewrite app_nil_r.
Qed.

Lemma escapeChar_cases c :
  (c = AMP /\ escapeChar c = str "&amp;")
  \/ (c = NBSP /\ escapeChar c = str "&nbsp;")
  \/ (c = LT /\ escapeChar c = str "&lt;")
  \/ (c = GT /\ escapeChar c = str "&gt;")
  \/ (c <> AMP /\ c <> NBSP /\ c <> LT /\ c <> GT /\ escapeChar c = [c]).
Proof.
  unfold escapeChar.
  destruct (N.eqb_spec c AMP); [now left|].
  destruct (N.eqb_spec c NBSP); [now right; left|].
  destruct (N.eqb_spec c LT); [now right; right; left|].
  destruct (N.eqb_spec c GT); [now right; right; right; left|].
  now right; right; right; right.
Qed.

Ltac escape_cases c :=
  destruct (escapeChar_cases c)
    as [[-> ->]|[[-> ->]|[[-> ->]|[[-> ->]|(?nA & ?nN & ?nL & ?nG & ->)]]]].

Lemma escapeString_cons c s : escapeString (c :: s) = escapeChar c ++ escapeString s.
Proof. reflexivity. Qed.

Lemma escaped_has_not c s :
  (c = LT \/ c = GT \/ c = NBSP) -> has c (escapeString s) = false.
Proof.
  intros Hc. induction s as [|x s IH]; [reflexivity|].
  rewrite escapeString_cons. unfold has in *. rewrite existsb_app, IH, orb_false_r.
  escape_cases x; try (destruct Hc as [->|[->| ->]]; reflexivity).
  simpl. rewrite orb_false_r. apply N.eqb_neq.
  destruct Hc as [->|[->| ->]]; congruence.
Qed.

Lemma escaped_ampersands s : ampersandsEncoded (escapeString s) = true.
Proof.
  induction s as [|x s IH]; [reflexivity|].
  rewrite escapeString_cons.
  escape_cases x; try (cbn; exact IH).
  cbn [app ampersandsEncoded]. apply N.eqb_neq in nA. now rewrite nA.
Qed.

Lemma decode_escaped s : decodeText (escapeString s) = s.
Proof.
  induction s as [|x s IH]; [reflexivity|].
  rewrite escapeString_cons.
  escape_cases x; try (cbn; now rewrite IH).
  cbn [app decodeText]. apply N.eqb_neq in nA. rewrite nA. cbn. now rewrite IH.
Qed.

(** C5: [escapeHtml] is defined on every string, the empty one included;
    its result holds no raw [<], [>] or no-break space, every ampersand in
    it starts a character reference, and decoding the references gives the
    original text back. *)
Theorem escapeHtml_entity_encodes :
  escapeHtml (Str []) = []
  /\ forall s : jsstring,
      has LT (escapeHtml (Str s)) = false
      /\ has GT (escapeHtml (Str s)) = false
      /\ has NBSP (escapeHtml (Str s)) = false
      /\ ampersandsEncoded (escapeHtml (Str s)) = true
      /\ decodeText (escapeHtml (Str s)) = s.
Proof.
  split; [reflexivity|]. intros s. rewrite escapeHtml_string.
  repeat split; auto using escaped_has_not, escaped_ampersands, decode_escaped.
Qed.

(** ** What the HTML parser gets to see *)

(** C1: for the reply [<img src=x onerror=alert(1)>] the bot bubble of
    [static/app.js] hands the parser the escaped text, whereas the bot
    bubble of the Markdown variant hands it the tag itself, wrapped in a
    paragraph. *)
Theorem bot_bubble_img_payload (w : widget) :
  parsed (trace_of (advance (StaticApp.addMessage bot (Str img_payload)) w))
  = [str "&lt;img src=x onerror=alert(1)&gt;"]
  /\ includes (str "<img") (str "&lt;img src=x onerror=alert(1)&gt;") = false
  /\ parsed (trace_of (advance (MarkdownApp.addMessage bot (Str img_payload)) w))
     = [str "<p><img src=x onerror=alert(1)></p>"]
  /\ includes (str "<img") (str "<p><img src=x onerror=alert(1)></p>") = true.
Proof. repeat split; vm_compute; reflexivity. Qed.

(** C2: in the early variant the text the user typed reaches the parser as
    it is, inside the bubble's markup. *)
Theorem early_user_bubble_is_markup (caption : jsstring) (net : outcome) :
  exists rest,
    parsed (trace_of (run net (submit Early) (typed img_payload (page_load caption))))
    = (str "<div><strong>T" ++ [250%N]
       ++ str ":</strong> <img src=x onerror=alert(1)></div>") :: rest.
Proof.
  destruct net as [|[o [[[|] r e]|]]]; eexists; vm_compute; reflexivity.
Qed.

(** The inert renderings of the user's text: escaped markup in
    [static/app.js], a text node in the Markdown variant. *)
Lemma escapeHtml_nonempty c s : escapeHtml (Str (c :: s)) <> [].
Proof.
  rewrite escapeHtml_string, escapeString_cons.
  escape_cases c; discriminate.
Qed.

Lemma static_bubble (sender : jsstring) (text : jsval) (w : widget) :
  parsed (trace_of (advance (StaticApp.addMessage sender text) w))
  = match escapeHtml text with [] => [] | m => [m] end.
Proof.
  unfold StaticApp.addMessage.
  destruct (eqb sender bot), (escapeHtml text); reflexivity.
Qed.

Lemma markdown_user_bubble (text : jsstring) (w : widget) :
  exists bubble,
    trace_of (advance (MarkdownApp.addMessage user (Str text)) w)
    = [AppendChild bubble; ScrollToBottom]
    /\ markup_of bubble = []
    /\ texts_of bubble = match text with [] => [person] | _ => [text; person] end.
Proof.
  eexists. unfold MarkdownApp.addMessage.
  split; [reflexivity|]. destruct text; split; reflexivity.
Qed.

(** ** One exchange *)

Ltac run_handler :=
  unfold submit, StaticApp.submit, MarkdownApp.submit, EarlyApp.submit;
  cbn [run bind preventDefault emit gets perform ret].

Ltac step_handler E :=
  rewrite ?E; cbn -[markdownToHtml escapeHtml trim].

(** A run is its first synchronous stretch followed by the run of the
    rest. *)
Lemma run_advance {A} (net : outcome) (m : async A) (w : widget) :
  run net m w = finish net (advance m w).
Proof.
  revert w. induction m as [a|e|e k IH|B f k IH|k _|res k _]; intros w;
    cbn [run advance finish].
  - reflexivity.
  - reflexivity.
  - rewrite IH. unfold finish. destruct (advance k (perform e w)) as [[m' w'] t].
    destruct (run net m' w') as [[r w''] t']. reflexivity.
  - apply IH.
  - destruct (run net (k net) w) as [[r w'] t]. reflexivity.
  - destruct (run net (k (body res)) w) as [[r w'] t]. reflexivity.
Qed.

(** The guard [if (!text) return;] of the three handlers. *)
Lemma run_blank (v : variant) (net : outcome) (w : widget) :
  trim (value w) = [] ->
  run net (submit v) w = (Ok tt, w, [PreventDefault]).
Proof.
  intros H. destruct v; run_handler; rewrite H; reflexivity.
Qed.

Lemma advance_blank (v : variant) (w : widget) :
  trim (value w) = [] ->
  advance (submit v) w = (Ret tt, w, [PreventDefault]).
Proof.
  intros H.
  destruct v; unfold submit, StaticApp.submit, MarkdownApp.submit, EarlyApp.submit;
    cbn [advance bind preventDefault emit gets perform ret]; rewrite H; reflexivity.
Qed.

(** C9: when the input trims to the empty string the handler only cancels
    the default action of the event: it returns normally without awaiting
    anything, the widget state (history, input, focus, button caption, chat
    box) is the one it started from, and the trace holds no bubble and no
    request. *)
Theorem blank_submit_is_noop (v : variant) (net : outcome) (w : widget) :
  trim (value w) = [] ->
  run net (submit v) w = (Ok tt, w, [PreventDefault])
  /\ advance (submit v) w = (Ret tt, w, [PreventDefault]).
Proof.
  intros H. split; [now apply run_blank | now apply advance_blank].
Qed.

Lemma blank_submit_is_noop_witness :
  let w := typed (str "   ") (page_load (str "Enviar")) in
  trim (value w) = []
  /\ run Rejects (submit Markdown) w = (Ok tt, w, [PreventDefault])
  /\ advance (submit Markdown) w = (Ret tt, w, [PreventDefault]).
Proof.
  intros w. split; [reflexivity|].
  apply (blank_submit_is_noop Markdown Rejects w). reflexivity.
Defined.

(** C3: a 2xx response that parses and says [success: true] with the
    reply [r] makes the handler return normally with exactly two pushes,
    the user's trimmed text and then the reply, so that the history is the
    old one followed by these two turns. *)
Theorem successful_exchange_appends_pair
        (v : variant) (w : widget) (d : data) (r : jsstring) :
  trim (value w) <> [] -> success d = true -> response d = Str r ->
  let out := run (Resolves {| ok := true; body := Some d |}) (submit v) w in
  outcome_of out = Ok tt
  /\ pushes (trace_of out)
     = [ {| sender := Usuario; text := Str (trim (value w)) |};
         {| sender := Bot; text := Str r |} ]
  /\ history (state_of out)
     = history w ++ [ {| sender := Usuario; text := Str (trim (value w)) |};
                      {| sender := Bot; text := Str r |} ].
Proof.
  intros Hne Hs Hr. destruct d as [s rs er]. simpl in Hs, Hr. subst.
  destruct (trim (value w)) as [|c t] eqn:E; [congruence|].
  destruct v; run_handler; step_handler E;
    rewrite <- ?app_assoc; repeat split; reflexivity.
Qed.

Lemma successful_exchange_appends_pair_witness :
  let w := typed (str " hola ") (page_load (str "Enviar")) in
  let d := {| success := true; response := Str (str "**buenas**");
              error := Undefined |} in
  let out := run (Resolves {| ok := true; body := Some d |}) (submit Static) w in
  outcome_of out = Ok tt
  /\ pushes (trace_of out)
     = [ {| sender := Usuario; text := Str (trim (value w)) |};
         {| sender := Bot; text := Str (str "**buenas**") |} ]
  /\ history (state_of out)
     = history w ++ [ {| sender := Usuario; text := Str (trim (value w)) |};
                      {| sender := Bot; text := Str (str "**buenas**") |} ].
Proof.
  intros w d.
  apply (successful_exchange_appends_pair Static w d (r := str "**buenas**"));
    [vm_compute; discriminate | reflexivity | reflexivity].
Defined.

(** *** Failed exchanges *)

Ltac split_outcome net :=
  destruct net as [|[[|] [[[|] [|?r] ?e]|]]].

(** What is thrown during an exchange, variant by variant: a rejected
    request, a status that is not 2xx where the handler checks it, a body
    that does not parse and, in the Markdown variant, a successful reply
    without text. *)
Lemma thrown_spec (v : variant) (net : outcome) (w : widget) :
  trim (value w) <> [] ->
  thrown (run net (submit v) w)
  = match net with
    | Rejects => Some NetworkFailure
    | Resolves res =>
        if checks_status v && negb (ok res) then Some (Error network_error)
        else match body res with
             | None => Some SyntaxError
             | Some d =>
                 match v, success d, response d with
                 | Markdown, true, Undefined => Some TypeError
                 | _, _, _ => None
                 end
             end
    end.
Proof.
  intros Hne. destruct (trim (value w)) as [|c t] eqn:E; [congruence|].
  destruct v; split_outcome net; run_handler; step_handler E; reflexivity.
Qed.

(** When something was thrown during the run of the handler, or the
    parsed response says [success: false], the handler pushes nothing and
    the history is the one from before the submit. *)
Lemma failed_exchange_keeps_history (v : variant) (net : outcome) (w : widget) :
  thrown (run net (submit v) w) <> None \/ flagged net = true ->
  pushes (trace_of (run net (submit v) w)) = []
  /\ history (state_of (run net (submit v) w)) = history w.
Proof.
  intros F. destruct (trim (value w)) as [|c t] eqn:E.
  - now rewrite run_blank.
  - assert (Hne : trim (value w) <> []) by congruence.
    rewrite (@thrown_spec v net w Hne) in F. clear Hne.
    destruct v; split_outcome net; cbn in F;
      try (destruct F as [F|F]; [congruence|discriminate F]);
      run_handler; step_handler E; split; reflexivity.
Qed.

Lemma failed_exchange_keeps_history_witness :
  let w := typed (str "hola") (page_load (str "Enviar")) in
  let net := Resolves {| ok := false;
                         body := Some {| success := true;
                                         response := Str (str "x");
                                         error := Undefined |} |} in
  thrown (run net (submit Static) w) = Some (Error network_error)
  /\ pushes (trace_of (run net (submit Static) w)) = []
  /\ history (state_of (run net (submit Static) w)) = history w.
Proof.
  intros w net. split; [reflexivity|].
  apply (failed_exchange_keeps_history Static net w).
  left. vm_compute. discriminate.
Defined.

(** X22: every run grows the history by the turns it pushes, and it
    pushes either nothing or one user turn followed by one bot turn. *)
Lemma history_grows_by_pushes (v : variant) (net : outcome) (w : widget) :
  history (state_of (run net (submit v) w))
  = history w ++ pushes (trace_of (run net (submit v) w))
  /\ (pushes (trace_of (run net (submit v) w)) = []
      \/ exists a b,
           pushes (trace_of (run net (submit v) w))
           = [ {| sender := Usuario; text := a |}; {| sender := Bot; text := b |} ]).
Proof.
  destruct (trim (value w)) as [|c t] eqn:E.
  - rewrite run_blank by assumption. cbn. rewrite app_nil_r. auto.
  - destruct v; split_outcome net; run_handler; step_handler E;
      rewrite <- ?app_assoc, ?app_nil_r; split; eauto.
Qed.

(** In [static/app.js] and in the Markdown variant no failed exchange
    touches the history, whichever way it failed: rejected request, status
    that is not 2xx, body that does not parse, or [success: false]. *)
Lemma guarded_failure_keeps_history (v : variant) (net : outcome) (w : widget) :
  v <> Early -> failed net = true ->
  pushes (trace_of (run net (submit v) w)) = []
  /\ history (state_of (run net (submit v) w)) = history w.
Proof.
  intros Hv F. destruct (trim (value w)) as [|c t] eqn:E.
  - now rewrite run_blank.
  - destruct v; [| |congruence]; split_outcome net; try discriminate F;
      run_handler; step_handler E; split; reflexivity.
Qed.

(** In the early variant a failed exchange leaves the history alone when
    the request was rejected, the body does not parse, or the parsed
    response says [success: false]: the status is the one case left. *)
Lemma early_failure_keeps_history (net : outcome) (w : widget) :
  net = Rejects \/ (exists o, net = Resolves {| ok := o; body := None |})
  \/ flagged net = true ->
  pushes (trace_of (run net (submit Early) w)) = []
  /\ history (state_of (run net (submit Early) w)) = history w.
Proof.
  intros F. destruct (trim (value w)) as [|c t] eqn:E.
  - now rewrite run_blank.
  - split_outcome net;
      try (destruct F as [F|[[o F]|F]]; discriminate F);
      run_handler; step_handler E; split; reflexivity.
Qed.

(** C4: a response with status 500 whose body parses and says
    [success: true] is a failed exchange, and [static/app.js] and the
    Markdown variant push nothing for it.  The early variant never looks at
    the status: its handler completes without throwing, pushes both turns
    and leaves a history that is two entries longer than before the
    submit. *)
Theorem early_error_status_appends (caption : jsstring) :
  let w := typed (str "hola") (page_load caption) in
  let net := Resolves {| ok := false;
                         body := Some {| success := true;
                                         response := Str (str "x");
                                         error := Undefined |} |} in
  failed net = true
  /\ (pushes (trace_of (run net (submit Static) w)) = []
      /\ history (state_of (run net (submit Static) w)) = history w)
  /\ (pushes (trace_of (run net (submit Markdown) w)) = []
      /\ history (state_of (run net (submit Markdown) w)) = history w)
  /\ outcome_of (run net (submit Early) w) = Ok tt
  /\ thrown (run net (submit Early) w) = None
  /\ pushes (trace_of (run net (submit Early) w))
     = [ {| sender := Usuario; text := Str (str "hola") |};
         {| sender := Bot; text := Str (str "x") |} ]
  /\ history (state_of (run net (submit Early) w))
     = history w ++ [ {| sender := Usuario; text := Str (str "hola") |};
                      {| sender := Bot; text := Str (str "x") |} ].
Proof. repeat split; vm_compute; reflexivity. Qed.

(** *** The controls after an exchange *)

(** X19: in [static/app.js] and in the Markdown variant, whatever the
    outcome of the exchange, the handler leaves the input enabled and
    focused and the button with the caption it had before the submit. *)
Lemma controls_restored (v : variant) (net : outcome) (w : widget) :
  v <> Early -> trim (value w) <> [] ->
  let w' := state_of (run net (submit v) w) in
  disabled w' = false /\ activeElement w' = OnInput /\ label w' = label w.
Proof.
  intros Hv Hne. destruct (trim (value w)) as [|c t] eqn:E; [congruence|].
  destruct v; [| |congruence]; split_outcome net;
    run_handler; step_handler E; repeat split; reflexivity.
Qed.

(** X21: the early variant never touches the controls: whatever the
    outcome, the input's disabled flag, the focus and the button's caption
    are as they were before the submit. *)
Lemma early_controls_untouched (net : outcome) (w : widget) :
  let w' := state_of (run net (submit Early) w) in
  disabled w' = disabled w /\ activeElement w' = activeElement w
  /\ label w' = label w.
Proof.
  destruct (trim (value w)) as [|c t] eqn:E.
  - now rewrite run_blank.
  - split_outcome net; run_handler; step_handler E; repeat split; reflexivity.
Qed.

(** C7: after a click on the submit button the early variant completes
    the exchange with the focus still on the button, where the other two
    variants have moved it to the input. *)
Theorem early_leaves_focus_on_button (caption : jsstring) :
  let w := clicked (typed (str "hola") (page_load caption)) in
  let net := replies (Str (str "ok")) in
  activeElement (state_of (run net (submit Static) w)) = OnInput
  /\ activeElement (state_of (run net (submit Markdown) w)) = OnInput
  /\ outcome_of (run net (submit Early) w) = Ok tt
  /\ activeElement (state_of (run net (submit Early) w)) = OnButton.
Proof. repeat split; vm_compute; reflexivity. Qed.

(** *** Order of the effects *)


Lemma early_echo_precedes_request (net : outcome) (w : widget) :
  trim (value w) <> [] ->
  let t := trace_of (run net (submit Early) w) in
  position is_bubble t = Some 1 /\ position is_fetch t = Some 2.
Proof.
  intros Hne. destruct (trim (value w)) as [|c s] eqn:E; [congruence|].
  split_outcome net; run_handler; step_handler E; split; reflexivity.
Qed.

(** C8: the early variant issues the request at index 2 of its trace and
    clears the input at index 7, after the reply was rendered and recorded;
    when the request is rejected it never clears the input, and what the
    user types while the request is under way is wiped when the reply
    arrives.  The other two variants clear the input at index 3 and issue
    the request at index 6. *)
Theorem early_clears_after_request (caption : jsstring) :
  let w := typed (str "hola") (page_load caption) in
  let ok_run := run (replies (Str (str "ok"))) (submit Early) w in
  let ko_run := run Rejects (submit Early) w in
  let overlap :=
    play Early [ UserTypes (str "hola"); SubmitEvent; UserTypes (str "otra");
                 Settles 0 (replies (Str (str "ok"))); Settles 0 Rejects ]
         (loaded caption) in
  position is_fetch (trace_of ok_run) = Some 2
  /\ position is_clear (trace_of ok_run) = Some 7
  /\ position is_fetch (trace_of ko_run) = Some 2
  /\ position is_clear (trace_of ko_run) = None
  /\ value (state_of ko_run) = str "hola"
  /\ (waiting overlap = [] /\ value (dom overlap) = [])
  /\ position is_clear (trace_of (run (replies (Str (str "ok"))) (submit Static) w))
     = Some 3
  /\ position is_fetch (trace_of (run (replies (Str (str "ok"))) (submit Static) w))
     = Some 6.
Proof. repeat split; vm_compute; reflexivity. Qed.

(** ** The history across exchanges *)

Lemma perform_history e w : is_push e = false -> history (perform e w) = history w.
Proof. destruct e; try discriminate; reflexivity. Qed.

Lemma advance_do {A} e (k : async A) w :
  state_of (advance (Do e k) w) = state_of (advance k (perform e w))
  /\ outcome_of (advance (Do e k) w) = outcome_of (advance k (perform e w)).
Proof.
  cbn [advance]. destruct (advance k (perform e w)) as [[m' w'] t]. now split.
Qed.

Lemma advance_pairs_only {A} (m : async A) :
  pairs_only m ->
  forall w, paired (history w) ->
            paired (history (state_of (advance m w)))
            /\ pairs_only (outcome_of (advance m w)).
Proof.
  induction 1 as [a|e|e k He _ IH|a b k _ IH|B f k _ IH|k Hk _|res k Hk _];
    intros w P.
  - split; [exact P|constructor].
  - split; [exact P|constructor].
  - destruct (advance_do e k w) as [-> ->].
    apply IH. now rewrite perform_history.
  - destruct (advance_do (Push {| sender := Usuario; text := a |})
                         (Do (Push {| sender := Bot; text := b |}) k) w) as [-> ->].
    destruct (advance_do (Push {| sender := Bot; text := b |}) k
                         (perform (Push {| sender := Usuario; text := a |}) w))
      as [-> ->].
    apply IH. cbn [perform history]. rewrite <- app_assoc. now constructor.
  - now apply IH.
  - split; [exact P|now constructor].
  - split; [exact P|now constructor].
Qed.

Lemma park_pairs_only {A} (m : async A) : pairs_only m -> Forall pairs_only (park m).
Proof. destruct m; cbn; auto. Qed.

Ltac pairs_only_step :=
  cbn -[markdownToHtml escapeHtml trim];
  match goal with
  | |- pairs_only (Do (Push _) (Do (Push _) _)) => apply po_pair
  | |- pairs_only (Do _ _) => apply po_do; [reflexivity|]
  | |- pairs_only (Read _ _) => apply po_read; intros ?
  | |- pairs_only (AwaitFetch _) => apply po_fetch; intros [|[[|] ?]]
  | |- pairs_only (AwaitJson _ _) => apply po_json; intros [[[|] [|?] ?]|]
  | |- pairs_only (Ret _) => apply po_ret
  | |- pairs_only (Raise _) => apply po_raise
  | |- pairs_only (match ?x with _ => _ end) => destruct x
  | |- pairs_only ?m => let m' := eval hnf in m in progress change (pairs_only m')
  end.

Lemma submit_pairs_only v : pairs_only (submit v).
Proof.
  destruct v; unfold submit, StaticApp.submit, MarkdownApp.submit, EarlyApp.submit;
    repeat pairs_only_step.
Qed.

Lemma Forall_firstn_skipn {A} (P : A -> Prop) n l :
  Forall P l -> Forall P (firstn n l) /\ Forall P (skipn n l).
Proof.
  intros H. rewrite <- (firstn_skipn n l) in H. now apply Forall_app in H.
Qed.

Lemma resume_invariant (m : async unit) i p :
  pairs_only m ->
  paired (history (dom p)) -> Forall pairs_only (waiting p) ->
  paired (history (state_of (advance m (dom p))))
  /\ Forall pairs_only (firstn i (waiting p) ++ park (outcome_of (advance m (dom p)))
                        ++ skipn (S i) (waiting p)).
Proof.
  intros Hm P W. destruct (advance_pairs_only Hm _ P) as [P' M].
  split; [exact P'|]. apply Forall_app. split.
  - now apply Forall_firstn_skipn.
  - apply Forall_app. split; [now apply park_pairs_only|].
    now apply Forall_firstn_skipn.
Qed.

Lemma run_task_invariant v a p :
  paired (history (dom p)) /\ Forall pairs_only (waiting p) ->
  paired (history (dom (run_task v a p)))
  /\ Forall pairs_only (waiting (run_task v a p)).
Proof.
  intros [P W]. destruct a as [s| | |i net]; cbn [run_task].
  - destruct (disabled (dom p)); now split.
  - now split.
  - destruct (advance_pairs_only (submit_pairs_only v) _ P) as [P' M].
    cbn [dom waiting]. split; [exact P'|].
    apply Forall_app. split; [exact W|now apply park_pairs_only].
  - destruct (nth_error (waiting p) i) as [m|] eqn:E; [|now split].
    assert (Hm : pairs_only m).
    { apply nth_error_In in E. revert m E. now apply Forall_forall. }
    destruct m as [| | | |k|res k]; try (now split); cbn [dom waiting];
      apply resume_invariant; try assumption.
    + now inversion Hm.
    + now inversion Hm.
Qed.

Lemma reachable_invariant v caption p :
  reachable v caption p ->
  paired (history (dom p)) /\ Forall pairs_only (waiting p).
Proof.
  intros [schedule ->]. unfold play.
  assert (I : paired (history (dom (loaded caption)))
              /\ Forall pairs_only (waiting (loaded caption)))
    by (split; constructor).
  revert I. generalize (loaded caption).
  induction schedule as [|a schedule IH]; intros p I; [exact I|].
  cbn [fold_left]. apply IH. now apply run_task_invariant.
Qed.

Lemma paired_even h : paired h -> Nat.even (List.length h) = true.
Proof.
  induction 1 as [|h a b _ IH]; [reflexivity|].
  rewrite length_app. cbn [List.length].
  replace (List.length h + 2) with (S (S (List.length h))) by lia.
  exact IH.
Qed.

Lemma paired_alternates h :
  paired h ->
  forall i t, nth_error h i = Some t ->
              sender t = if Nat.even i then Usuario else Bot.
Proof.
  induction 1 as [|h a b P IH]; intros i t Hi.
  - destruct i; discriminate.
  - destruct (Nat.lt_ge_cases i (List.length h)) as [Hlt|Hge].
    + rewrite nth_error_app1 in Hi by assumption. now apply IH.
    + rewrite nth_error_app2 in Hi by assumption.
      pose proof (paired_even P) as Hev.
      replace i with (List.length h + (i - List.length h)) by lia.
      destruct (i - List.length h) as [|[|k]] eqn:Ek.
      * cbn in Hi. injection Hi as <-. now rewrite Nat.add_0_r, Hev.
      * cbn in Hi. injection Hi as <-.
        rewrite Nat.add_1_r, Nat.even_succ, <- Nat.negb_even, Hev. reflexivity.
      * destruct k; discriminate.
Qed.

(** C10: in every state the page can reach, whatever the variant and
    however the handlers of several submits interleave, the history has
    even length, its entries at even indices are user turns and its entries
    at odd indices are bot turns. *)
Theorem history_alternates (v : variant) (caption : jsstring) (p : page) :
  reachable v caption p ->
  Nat.Even (List.length (history (dom p)))
  /\ forall i t, nth_error (history (dom p)) i = Some t ->
                 sender t = if Nat.even i then Usuario else Bot.
Proof.
  intros R. apply reachable_invariant in R as [P _]. split.
  - apply Nat.even_spec. now apply paired_even.
  - now apply paired_alternates.
Qed.

Lemma history_alternates_witness :
  let schedule :=
    [ UserTypes (str "hola"); SubmitEvent; UserTypes (str "otra"); UserClicks;
      SubmitEvent; Settles 1 (replies (Str (str "dos"))); Settles 1 Rejects;
      Settles 0 Rejects ] in
  let p := play Early schedule (loaded (str "Enviar")) in
  reachable Early (str "Enviar") p
  /\ waiting p = []
  /\ history (dom p) = [ {| sender := Usuario; text := Str (str "otra") |};
                         {| sender := Bot; text := Str (str "dos") |} ]
  /\ Nat.Even (List.length (history (dom p)))
  /\ forall i t, nth_error (history (dom p)) i = Some t ->
                 sender t = if Nat.even i then Usuario else Bot.
Proof.
  intros schedule p.
  assert (R : reachable Early (str "Enviar") p) by (exists schedule; reflexivity).
  split; [exact R|]. split; [reflexivity|]. split; [reflexivity|].
  exact (history_alternates R).
Defined.

(** * Further properties of the handlers *)

(** ** How a handler ends *)

(** X11: in [static/app.js] and in the Markdown variant the handler returns
    normally whatever the network does and whatever the page holds: the
    [catch] block takes every exception and neither it nor the [finally]
    block throws. *)
Theorem guarded_handlers_never_reject (net : outcome) (w : widget) :
  outcome_of (run net (submit Static) w) = Ok tt
  /\ outcome_of (run net (submit Markdown) w) = Ok tt.
Proof.
  destruct (trim (value w)) as [|c t] eqn:E.
  - rewrite !run_blank by assumption. now split.
  - split; split_outcome net; run_handler; step_handler E; reflexivity.
Qed.

(** X12: in the early variant a rejected request or a body that is not JSON
    ends the handler with that exception: the user's bubble is the only
    thing rendered, nothing is logged, and the input still holds what the
    user typed. *)
Theorem early_rejection_is_unhandled (net : outcome) (w : widget) :
  trim (value w) <> [] ->
  (net = Rejects \/ exists o, net = Resolves {| ok := o; body := None |}) ->
  let out := run net (submit Early) w in
  outcome_of out
  = Throw (match net with Rejects => NetworkFailure | Resolves _ => SyntaxError end)
  /\ parsed (trace_of out) = [EarlyApp.user_markup (trim (value w))]
  /\ caught (trace_of out) = None
  /\ value (state_of out) = value w.
Proof.
  intros Hne Hnet. destruct (trim (value w)) as [|c t] eqn:E; [congruence|].
  destruct Hnet as [->|[o ->]]; run_handler; step_handler E;
    repeat split; reflexivity.
Qed.

Lemma early_rejection_is_unhandled_witness :
  let w := typed (str " hola ") (page_load (str "Enviar")) in
  let out := run Rejects (submit Early) w in
  outcome_of out = Throw NetworkFailure
  /\ parsed (trace_of out) = [EarlyApp.user_markup (trim (value w))]
  /\ caught (trace_of out) = None
  /\ value (state_of out) = value w.
Proof.
  intros w.
  apply (@early_rejection_is_unhandled Rejects w);
    [vm_compute; discriminate | left; reflexivity].
Defined.

(** ** While the request is under way *)

(** X9: a submit with text leaves [static/app.js] and the Markdown variant
    waiting for [fetch] with the input cleared and disabled, the button
    captioned [Enviando...], the history untouched and one request sent. *)
Theorem waiting_state (w : widget) :
  trim (value w) <> [] ->
  forall v, v <> Early ->
  let out := advance (submit v) w in
  (exists k, outcome_of out = AwaitFetch k)
  /\ value (state_of out) = []
  /\ disabled (state_of out) = true
  /\ label (state_of out) = sending
  /\ history (state_of out) = history w
  /\ requests (trace_of out)
     = [ {| message := trim (value w); sent_history := history w |} ].
Proof.
  intros Hne v Hv. destruct (trim (value w)) as [|c t] eqn:E; [congruence|].
  destruct v; [| |congruence];
    unfold submit, StaticApp.submit, MarkdownApp.submit;
    cbn [advance bind preventDefault emit gets perform ret]; rewrite E;
    cbn -[markdownToHtml escapeHtml trim]; repeat split; eauto.
Qed.

Lemma waiting_state_witness :
  let w := typed (str "hola") (page_load (str "Enviar")) in
  let out := advance (submit Static) w in
  (exists k, outcome_of out = AwaitFetch k)
  /\ value (state_of out) = []
  /\ disabled (state_of out) = true
  /\ label (state_of out) = sending
  /\ history (state_of out) = history w
  /\ requests (trace_of out)
     = [ {| message := trim (value w); sent_history := history w |} ].
Proof.
  intros w.
  apply (@waiting_state w); [vm_compute; discriminate | discriminate].
Defined.

Lemma submit_requests (v : variant) (net : outcome) (w : widget) :
  trim (value w) <> [] ->
  requests (trace_of (run net (submit v) w))
  = [ {| message := trim (value w); sent_history := history w |} ].
Proof.
  intros Hne. destruct (trim (value w)) as [|c t] eqn:E; [congruence|].
  destruct v; split_outcome net; run_handler; step_handler E; reflexivity.
Qed.

(** X8: whatever the variant and the outcome, a submit with text sends
    exactly one request; it carries the trimmed text and the history as it
    was before the submit, without the new message in it. *)
Theorem one_request_per_submit (v : variant) (net : outcome) (w : widget) :
  trim (value w) <> [] ->
  requests (trace_of (run net (submit v) w))
  = [ {| message := trim (value w); sent_history := history w |} ].
Proof. apply submit_requests. Qed.

Lemma one_request_per_submit_witness :
  let w := typed (str " hola ") (page_load (str "Enviar")) in
  requests (trace_of (run Rejects (submit Early) w))
  = [ {| message := trim (value w); sent_history := history w |} ].
Proof.
  intros w. apply (@one_request_per_submit Early Rejects w).
  vm_compute. discriminate.
Defined.

(** ** What an exchange shows *)



Lemma escapeHtml_no_lt (v : jsval) : has LT (escapeHtml v) = false.
Proof.
  destruct v as [|s]; [reflexivity|].
  rewrite escapeHtml_string. apply escaped_has_not. now left.
Qed.

Lemma static_content_no_lt (v : jsval) (content : node) :
  markup_of content = [] ->
  Forall (fun m => has LT m = false) (markup_of (set_innerHTML (escapeHtml v) content)).
Proof.
  intros Hc. destruct content as [d|m|tag cls kids]; cbn [set_innerHTML];
    try (rewrite Hc; constructor).
  destruct (escapeHtml v) as [|a s] eqn:E; cbn; constructor; [|constructor].
  rewrite <- E. apply escapeHtml_no_lt.
Qed.

Ltac no_lt :=
  unfold parsed;
  cbn -[markdownToHtml escapeHtml trim set_innerHTML has];
  repeat first
    [ apply Forall_nil
    | apply static_content_no_lt; reflexivity
    | apply Forall_cons; [apply escapeHtml_no_lt|]
    | apply Forall_app; split ].

(** X3: [static/app.js] hands the parser no [<] at all: whatever the user
    typed and whatever the backend or the network answered, every string it
    assigns to [innerHTML] during an exchange is free of it. *)
Theorem static_parser_sees_no_tag (net : outcome) (w : widget) :
  Forall (fun m => has LT m = false) (parsed (trace_of (run net (submit Static) w))).
Proof.
  destruct (trim (value w)) as [|c t] eqn:E.
  - rewrite run_blank by assumption. constructor.
  - split_outcome net; run_handler; rewrite ?E;
      cbn -[markdownToHtml escapeHtml trim set_innerHTML]; no_lt.
Qed.

(** ** Missing fields of the response *)

(** X14: when the backend reports a failure without an [error] text (the
    field is missing or empty), [static/app.js] and the Markdown variant
    show the fixed text [Error: ] followed by [went_wrong], while the early variant
    prints the field as it is, [Error: undefined] when it is missing. *)
Theorem failure_without_error_text (w : widget) (d : data) (o : bool) :
  trim (value w) <> [] -> success d = false -> truthy (error d) = false ->
  parsed (trace_of (run (Resolves {| ok := true; body := Some d |}) (submit Static) w))
  = assigned (escapeHtml (Str (trim (value w)))) ++ [str "Error: " ++ went_wrong]
  /\ parsed (trace_of (run (Resolves {| ok := true; body := Some d |})
                           (submit Markdown) w))
     = [str "<p>Error: " ++ went_wrong ++ str "</p>"]
  /\ parsed (trace_of (run (Resolves {| ok := o; body := Some d |}) (submit Early) w))
     = [ EarlyApp.user_markup (trim (value w));
         str "<div style=" ++ [QUOT] ++ str "color:red;" ++ [QUOT] ++ str ">Error: "
         ++ match error d with Undefined => str "undefined" | Str s => s end
         ++ str "</div>" ].
Proof.
  intros Hne Hs He. destruct d as [s r e]. cbn in Hs, He. subst s.
  destruct (trim (value w)) as [|c t] eqn:E; [congruence|].
  repeat split.
  - run_handler. step_handler E. unfold parsed, assigned.
    cbn -[markdownToHtml escapeHtml trim].
    destruct (escapeHtml (Str (c :: t))); destruct e as [|[|x s]];
      try discriminate He; reflexivity.
  - run_handler. rewrite E. destruct e as [|[|x s]]; try discriminate He;
      vm_compute; reflexivity.
  - destruct o; run_handler; step_handler E; destruct e; reflexivity.
Qed.

Lemma failure_without_error_text_witness :
  let w := typed (str "hola") (page_load (str "Enviar")) in
  let d := {| success := false; response := Undefined; error := Undefined |} in
  parsed (trace_of (run (Resolves {| ok := true; body := Some d |}) (submit Static) w))
  = assigned (escapeHtml (Str (trim (value w)))) ++ [str "Error: " ++ went_wrong]
  /\ parsed (trace_of (run (Resolves {| ok := true; body := Some d |})
                           (submit Markdown) w))
     = [str "<p>Error: " ++ went_wrong ++ str "</p>"]
  /\ parsed (trace_of (run (Resolves {| ok := false; body := Some d |})
                           (submit Early) w))
     = [ EarlyApp.user_markup (trim (value w));
         str "<div style=" ++ [QUOT] ++ str "color:red;" ++ [QUOT] ++ str ">Error: "
         ++ match error d with Undefined => str "undefined" | Str s => s end
         ++ str "</div>" ].
Proof.
  intros w d.
  apply (@failure_without_error_text w d false);
    [vm_compute; discriminate | reflexivity | reflexivity].
Defined.

(** X15: when the backend says [success: true] but sends no [response],
    [static/app.js] shows an empty bot bubble and the early variant the word
    [undefined], and both record a bot turn without text; the Markdown
    variant fails to render the reply, shows the notice that the server
    cannot be reached and records nothing. *)
Theorem reply_without_text (w : widget) (d : data) :
  trim (value w) <> [] -> success d = true -> response d = Undefined ->
  let net := Resolves {| ok := true; body := Some d |} in
  let recorded := [ {| sender := Usuario; text := Str (trim (value w)) |};
                    {| sender := Bot; text := Undefined |} ] in
  (pushes (trace_of (run net (submit Static) w)) = recorded
   /\ parsed (trace_of (run net (submit Static) w))
      = assigned (escapeHtml (Str (trim (value w)))))
  /\ (pushes (trace_of (run net (submit Markdown) w)) = []
      /\ thrown (run net (submit Markdown) w) = Some TypeError
      /\ parsed (trace_of (run net (submit Markdown) w))
         = [str "<p>" ++ unreachable ++ str "</p>"])
  /\ (pushes (trace_of (run net (submit Early) w)) = recorded
      /\ parsed (trace_of (run net (submit Early) w))
         = [ EarlyApp.user_markup (trim (value w));
             str "<div><strong>Bot:</strong> undefined</div>" ]).
Proof.
  intros Hne Hs Hr. destruct d as [s r e]. cbn in Hs, Hr. subst s r.
  destruct (trim (value w)) as [|c t] eqn:E; [congruence|].
  cbv zeta. repeat split; run_handler; rewrite E.
  - step_handler E. reflexivity.
  - step_handler E. unfold parsed, assigned. cbn -[markdownToHtml escapeHtml trim].
    destruct (escapeHtml (Str (c :: t))); reflexivity.
  - vm_compute. reflexivity.
  - vm_compute. reflexivity.
  - vm_compute. reflexivity.
  - step_handler E. reflexivity.
  - step_handler E. reflexivity.
Qed.

Lemma reply_without_text_witness :
  let w := typed (str "hola") (page_load (str "Enviar")) in
  let d := {| success := true; response := Undefined; error := Undefined |} in
  let net := Resolves {| ok := true; body := Some d |} in
  pushes (trace_of (run net (submit Markdown) w)) = []
  /\ thrown (run net (submit Markdown) w) = Some TypeError
  /\ parsed (trace_of (run net (submit Markdown) w))
     = [str "<p>" ++ unreachable ++ str "</p>"].
Proof.
  intros w d net.
  apply (@reply_without_text w d); [vm_compute; discriminate | reflexivity | reflexivity].
Defined.

(** ** Bubbles and escaping *)

(** X2: a bubble of [static/app.js] shows exactly the text it was given,
    whoever the sender is: the one string it hands to the parser decodes
    back to the text.  A user bubble of the Markdown variant holds the text
    as a text node and hands nothing to the parser. *)
Theorem bubble_shows_its_text (sender text : jsstring) (w : widget) :
  text <> [] ->
  map decodeText (parsed (trace_of (advance (StaticApp.addMessage sender (Str text)) w)))
  = [text]
  /\ exists bubble,
       trace_of (advance (MarkdownApp.addMessage user (Str text)) w)
       = [AppendChild bubble; ScrollToBottom]
       /\ markup_of bubble = []
       /\ texts_of bubble = [text; person].
Proof.
  intros Hne. destruct text as [|c s]; [congruence|]. split.
  - rewrite static_bubble.
    destruct (escapeHtml (Str (c :: s))) as [|a m] eqn:E.
    + now apply escapeHtml_nonempty in E.
    + cbn [map]. rewrite <- E, escapeHtml_string, decode_escaped. reflexivity.
  - destruct (markdown_user_bubble (c :: s) w) as (bubble & Ht & Hm & Hx).
    exists bubble. repeat split; assumption.
Qed.

Lemma bubble_shows_its_text_witness :
  let text := str "a < b && c" in
  map decodeText
      (parsed (trace_of (advance (StaticApp.addMessage bot (Str text))
                                 (page_load (str "Enviar")))))
  = [text]
  /\ exists bubble,
       trace_of (advance (MarkdownApp.addMessage user (Str text))
                         (page_load (str "Enviar")))
       = [AppendChild bubble; ScrollToBottom]
       /\ markup_of bubble = []
       /\ texts_of bubble = [text; person].
Proof.
  intros text.
  apply (@bubble_shows_its_text bot text (page_load (str "Enviar"))).
  discriminate.
Defined.

Lemma escapeChar_length c : 1 <= List.length (escapeChar c).
Proof. escape_cases c; cbn; lia. Qed.

Lemma escapeString_length s : List.length s <= List.length (escapeString s).
Proof.
  induction s as [|c s IH]; [reflexivity|].
  rewrite escapeString_cons, length_app. cbn [List.length].
  pose proof (escapeChar_length c). lia.
Qed.

(** X1: [escapeHtml] returns a text unchanged exactly when the text holds
    none of [&], [<], [>] and the no-break space. *)
Theorem escapeHtml_fixes_plain_text (s : jsstring) :
  escapeHtml (Str s) = s
  <-> has AMP s = false /\ has LT s = false /\ has GT s = false
      /\ has NBSP s = false.
Proof.
  rewrite escapeHtml_string. unfold has. induction s as [|c s IH].
  - cbn. tauto.
  - rewrite escapeString_cons. cbn [existsb].
    pose proof (escapeString_length s) as Hl.
    escape_cases c;
      try (split; [intros H; apply (f_equal (@List.length N)) in H;
                   rewrite length_app in H; cbn in H; lia
                  | cbn; intros (H1 & H2 & H3 & H4); discriminate ]).
    cbn [app].
    rewrite !orb_false_iff, !N.eqb_neq.
    split.
    + intros H. injection H as H. apply IH in H. intuition congruence.
    + intros H. f_equal. apply IH. tauto.
Qed.

Lemma escapeHtml_fixes_plain_text_witness :
  escapeHtml (Str (str "hola, mundo")) = str "hola, mundo".
Proof.
  apply (proj2 (escapeHtml_fixes_plain_text (str "hola, mundo"))).
  repeat split; reflexivity.
Defined.

(** ** The converter *)

(** X4: a reply without [#], [*], line feed and [<li>] passes through
    [markdownToHtml] unescaped: the result is the reply between [<p>] and
    [</p>], and that is what a bot bubble of the Markdown variant hands to
    the parser, tags of the reply included. *)
Theorem plain_reply_is_wrapped_verbatim (text : jsstring) (w : widget) :
  has 35%N text = false -> has 42%N text = false -> has LF text = false ->
  includes (str "<li>") text = false ->
  includes (str "<p></p>") (str "<p>" ++ text ++ str "</p>") = false ->
  markdownToHtml text = str "<p>" ++ text ++ str "</p>"
  /\ parsed (trace_of (advance (MarkdownApp.addMessage bot (Str text)) w))
     = [str "<p>" ++ text ++ str "</p>"].
Proof.
  intros Hh Hs Hn Hl Hp. split.
  - now apply markdownToHtml_plain.
  - now apply markdown_bot_bubble_plain.
Qed.

Lemma plain_reply_is_wrapped_verbatim_witness :
  let text := str "<script>alert(1)</script> & co" in
  markdownToHtml text = str "<p>" ++ text ++ str "</p>"
  /\ parsed (trace_of (advance (MarkdownApp.addMessage bot (Str text))
                               (page_load (str "Enviar"))))
     = [str "<p>" ++ text ++ str "</p>"].
Proof.
  intros text.
  apply (@plain_reply_is_wrapped_verbatim text (page_load (str "Enviar")));
    reflexivity.
Defined.

(** ** One request at a time *)

Lemma perform_keeps_input e w :
  keeps_input e = true ->
  value (perform e w) = value w /\ disabled (perform e w) = disabled w.
Proof. destruct e; try discriminate; now split. Qed.

Lemma advance_winding_up {A} (m : async A) :
  winding_up m -> forall w, park (outcome_of (advance m w)) = [].
Proof.
  induction 1 as [a|e|e k _ IH|B f k _ IH]; intros w; try reflexivity.
  - destruct (advance_do e k w) as [_ ->]. apply IH.
  - apply IH.
Qed.

Lemma advance_holds_input {A} (m : async A) :
  holds_input m ->
  forall w, value w = [] -> disabled w = true ->
    park (outcome_of (advance m w)) = []
    \/ (park (outcome_of (advance m w)) = [outcome_of (advance m w)]
        /\ holds_input (outcome_of (advance m w))
        /\ value (state_of (advance m w)) = []
        /\ disabled (state_of (advance m w)) = true).
Proof.
  induction 1 as [a|e|e k He _ IH|k Hk|B f k _ IH|k Hk _|res k Hk _];
    intros w Hv Hd.
  - now left.
  - now left.
  - destruct (advance_do e k w) as [-> ->].
    destruct (perform_keeps_input e w He) as [Ev Ed].
    apply IH; congruence.
  - left. destruct (advance_do (SetDisabled false) k w) as [_ ->].
    now apply advance_winding_up.
  - now apply IH.
  - right. repeat split; try assumption. now constructor.
  - right. repeat split; try assumption. now constructor.
Qed.

Ltac holds_input_step :=
  cbn -[markdownToHtml escapeHtml trim];
  match goal with
  | |- holds_input (Do (SetDisabled false) _) => apply hi_release
  | |- holds_input (Do _ _) => apply hi_do; [reflexivity|]
  | |- holds_input (Read _ _) => apply hi_read; intros ?
  | |- holds_input (AwaitFetch _) => apply hi_fetch; intros [|[[|] ?]]
  | |- holds_input (AwaitJson _ _) => apply hi_json; intros [[[|] [|?] ?]|]
  | |- holds_input (Ret _) => apply hi_ret
  | |- holds_input (Raise _) => apply hi_raise
  | |- winding_up (Do _ _) => apply wu_do
  | |- winding_up (Read _ _) => apply wu_read; intros ?
  | |- winding_up (Ret _) => apply wu_ret
  | |- winding_up (Raise _) => apply wu_raise
  | |- holds_input (match ?x with _ => _ end) => destruct x
  | |- holds_input ?m => let m' := eval hnf in m in progress change (holds_input m')
  | |- winding_up ?m => let m' := eval hnf in m in progress change (winding_up m')
  end.

(** A submit on the idle page: nothing happens, or the handler waits with
    the input cleared and disabled. *)
Lemma submit_takes_input (v : variant) (w : widget) :
  v <> Early ->
  advance (submit v) w = (Ret tt, w, [PreventDefault])
  \/ (park (outcome_of (advance (submit v) w)) = [outcome_of (advance (submit v) w)]
      /\ holds_input (outcome_of (advance (submit v) w))
      /\ value (state_of (advance (submit v) w)) = []
      /\ disabled (state_of (advance (submit v) w)) = true).
Proof.
  intros Hv. destruct (trim (value w)) as [|c t] eqn:E.
  - left. now apply advance_blank.
  - right.
    destruct v; [| |congruence];
      unfold submit, StaticApp.submit, MarkdownApp.submit;
      cbn [advance bind preventDefault emit gets perform ret]; rewrite E;
      cbn -[markdownToHtml escapeHtml trim];
      (repeat split; try reflexivity); repeat holds_input_step.
Qed.

Lemma trim_nil : trim [] = [].
Proof. reflexivity. Qed.

Lemma run_task_one_in_flight (v : variant) (a : task) (p : page) :
  v <> Early -> one_in_flight p -> one_in_flight (run_task v a p).
Proof.
  intros Hv J. destruct a as [s| | |i net]; cbn [run_task].
  - destruct (disabled (dom p)) eqn:D; [exact J|].
    destruct J as [W|(m & W & _ & _ & D')]; [now left|congruence].
  - destruct J as [W|(m & W & H & V & D)]; [now left|].
    right. exists m. now repeat split.
  - destruct J as [W|(m & W & H & V & D)].
    + cbn [dom waiting]. rewrite W. cbn [app].
      destruct (submit_takes_input (dom p) Hv) as [->|(P & H & V & D)].
      * now left.
      * right. eexists. repeat split; eassumption.
    + rewrite advance_blank by (rewrite V; apply trim_nil).
      cbn [state_of outcome_of fst snd park dom waiting]. rewrite app_nil_r.
      right. exists m. now repeat split.
  - destruct J as [W|(m & W & H & V & D)].
    + rewrite W. destruct i; now left.
    + rewrite W. destruct i as [|i]; cbn [nth_error];
        [|destruct i; right; exists m; now repeat split].
      destruct m as [a|e|e k|B f k|k|res k];
        try (right; eexists; split; [exact W|now repeat split]);
        unfold one_in_flight; cbn [dom waiting firstn skipn app];
        rewrite app_nil_r.
      * inversion H as [| | | | |? Hk|]; subst.
        destruct (advance_holds_input (Hk net) (dom p) V D) as [->|(-> & H' & V' & D')].
        -- now left.
        -- right. eexists. repeat split; eassumption.
      * inversion H as [| | | | | |? ? Hk]; subst.
        destruct (advance_holds_input (Hk (body res)) (dom p) V D)
          as [->|(-> & H' & V' & D')].
        -- now left.
        -- right. eexists. repeat split; eassumption.
Qed.

Lemma play_one_in_flight (v : variant) (schedule : list task) (p : page) :
  v <> Early -> one_in_flight p -> one_in_flight (play v schedule p).
Proof.
  intros Hv. revert p. unfold play.
  induction schedule as [|a schedule IH]; intros p J; [exact J|].
  cbn [fold_left]. apply IH. now apply run_task_one_in_flight.
Qed.

(** X10: on the event loop [static/app.js] and the Markdown variant never
    have more than one request under way: while a handler waits, the input
    is empty and disabled, so that typing does nothing and a further submit
    returns at the guard. *)
Theorem one_request_at_a_time (caption : jsstring) (schedule : list task) :
  (List.length (waiting (play Static schedule (loaded caption))) <= 1
   /\ (waiting (play Static schedule (loaded caption)) <> [] ->
       value (dom (play Static schedule (loaded caption))) = []
       /\ disabled (dom (play Static schedule (loaded caption))) = true))
  /\ (List.length (waiting (play Markdown schedule (loaded caption))) <= 1
      /\ (waiting (play Markdown schedule (loaded caption)) <> [] ->
          value (dom (play Markdown schedule (loaded caption))) = []
          /\ disabled (dom (play Markdown schedule (loaded caption))) = true)).
Proof.
  assert (H : forall v, v <> Early ->
                        one_in_flight (play v schedule (loaded caption)))
    by (intros v Hv; apply play_one_in_flight; [exact Hv|now left]).
  split; [destruct (H Static) as [W|(m & W & _ & V & D)]
         |destruct (H Markdown) as [W|(m & W & _ & V & D)]];
    try discriminate; rewrite W; cbn [List.length]; (split; [lia|]);
    intros Hne; try congruence; now split.
Qed.

Lemma one_request_at_a_time_witness :
  let schedule := [ UserTypes (str "hola"); SubmitEvent;
                    UserTypes (str "otra"); UserClicks; SubmitEvent ] in
  waiting (play Static schedule (loaded (str "Enviar"))) <> []
  /\ value (dom (play Static schedule (loaded (str "Enviar")))) = []
  /\ disabled (dom (play Static schedule (loaded (str "Enviar")))) = true.
Proof.
  intros schedule.
  assert (H : waiting (play Static schedule (loaded (str "Enviar"))) <> [])
    by (vm_compute; discriminate).
  split; [exact H|].
  exact (proj2 (proj1 (one_request_at_a_time (str "Enviar") schedule)) H).
Defined.

(** ** Line feeds *)

Section ReplaceChar.
Variable input : jsstring.
Variable fl : flags.
Variable r : regex.

Lemma execFrom_some_inv k i p y :
  execFrom input fl r k i = Some (p, y) ->
  i <= p < i + k /\ matchAt input fl r p = Some y
  /\ forall j, i <= j < p -> matchAt input fl r j = None.
Proof.
  revert i. induction k as [|k IH]; intros i H; [discriminate|].
  cbn [execFrom] in H. destruct (matchAt input fl r i) as [z|] eqn:E.
  - injection H as <- <-. repeat split; try lia. exact E.
  - apply IH in H as (Hp & Hm & Hn). repeat split; try lia; [exact Hm|].
    intros j Hj. destruct (Nat.eq_dec j i) as [->|]; [exact E|]. apply Hn. lia.
Qed.

Lemma execFrom_none_inv k i :
  execFrom input fl r k i = None ->
  forall j, i <= j < i + k -> matchAt input fl r j = None.
Proof.
  revert i. induction k as [|k IH]; intros i H j Hj; [lia|].
  cbn [execFrom] in H. destruct (matchAt input fl r i) as [z|] eqn:E; [discriminate|].
  destruct (Nat.eq_dec j i) as [->|]; [exact E|]. apply (IH (S i)); [exact H|lia].
Qed.

End ReplaceChar.

Section ReplaceOne.
Variable input : jsstring.
Variable fl : flags.
Variable c : N.
Variable template : jsstring.

Lemma matchAt_chr j :
  matchAt input fl (Chr c) j
  = match nth_error input j with
    | Some x => if (c =? x)%N
                then Some {| endIndex := S j; captures := [None] |}
                else None
    | None => None
    end.
Proof. reflexivity. Qed.

(** The stretch of the input from [i] to the end, cut at an occurrence of
    [c] at [p]. *)
Lemma skipn_cut i p :
  i <= p -> nth_error input p = Some c ->
  skipn i input = substring input i p ++ c :: skipn (S p) input.
Proof.
  intros Hi Hp. unfold substring.
  rewrite <- (firstn_skipn (p - i) (skipn i input)) at 1. f_equal.
  rewrite skipn_skipn. replace (p - i + i) with p by lia.
  assert (Hl : p < List.length input) by (apply nth_error_Some; congruence).
  rewrite <- (firstn_skipn p input) in Hp.
  rewrite nth_error_app2 in Hp by (rewrite length_firstn; lia).
  rewrite length_firstn, Nat.min_l, Nat.sub_diag in Hp by lia.
  destruct (skipn p input) as [|x rest] eqn:E; [discriminate|].
  injection Hp as ->. f_equal.
  change (S p) with (1 + p). rewrite <- skipn_skipn, E. reflexivity.
Qed.

Lemma swap_absent l :
  (forall x, In x l -> x <> c) -> flat_map (swap_char c template) l = l.
Proof.
  induction l as [|x l IH]; intros H; [reflexivity|].
  cbn [flat_map]. unfold swap_char at 1.
  destruct (N.eqb_spec c x) as [->|_].
  - exfalso. apply (H x); [now left|reflexivity].
  - cbn. f_equal. apply IH. intros y Hy. apply H. now right.
Qed.

Lemma in_stretch i p x :
  (forall j, i <= j < p -> matchAt input fl (Chr c) j = None) ->
  p <= List.length input ->
  In x (substring input i p) -> x <> c.
Proof.
  intros Hn Hp Hx Hc. subst x. unfold substring in Hx.
  apply In_nth_error in Hx as [n Hx].
  assert (Hlt : n < p - i).
  { assert (n < List.length (firstn (p - i) (skipn i input)))
      by (apply nth_error_Some; congruence).
    rewrite length_firstn in H. lia. }
  rewrite nth_error_firstn in Hx.
  destruct (Nat.ltb_spec n (p - i)); [|lia].
  rewrite nth_error_skipn in Hx.
  specialize (Hn (i + n)). rewrite matchAt_chr, Hx, N.eqb_refl in Hn.
  discriminate Hn. lia.
Qed.

Lemma splice_collect_chr k i :
  global fl = true -> has DOLLAR template = false ->
  i <= List.length input -> List.length input - i < k ->
  splice input (Chr c) template (collect input fl (Chr c) k i) i
  = flat_map (swap_char c template) (skipn i input).
Proof.
  intros G T. revert i. induction k as [|k IH]; intros i Hi Hk; [lia|].
  cbn [collect]. unfold exec.
  destruct (execFrom input fl (Chr c) (S (List.length input) - i) i)
    as [[p y]|] eqn:E.
  - apply execFrom_some_inv in E as (Hp & Hm & Hn).
    rewrite matchAt_chr in Hm.
    destruct (nth_error input p) as [x|] eqn:Ex; [|discriminate].
    destruct (N.eqb_spec c x) as [<-|]; [|discriminate].
    injection Hm as <-. cbn [endIndex].
    assert (Hl : p < List.length input) by (apply nth_error_Some; congruence).
    destruct (Nat.eqb_spec (S p) p); [lia|].
    cbn [splice endIndex]. destruct (Nat.leb_spec i p); [|lia].
    rewrite getSubstitution_plain by assumption.
    rewrite IH by lia.
    rewrite (@skipn_cut i p) by (try lia; assumption).
    rewrite flat_map_app. cbn [flat_map].
    replace (swap_char c template c) with template
      by (unfold swap_char; now rewrite N.eqb_refl).
    rewrite (@swap_absent (substring input i p)); [reflexivity|].
    intros x. apply in_stretch; [exact Hn|lia].
  - cbn [splice]. symmetry. apply swap_absent. intros x Hx Hc. subst x.
    apply In_nth_error in Hx as [n Hx]. rewrite nth_error_skipn in Hx.
    assert (i + n < List.length input) by (apply nth_error_Some; congruence).
    assert (Hn : matchAt input fl (Chr c) (i + n) = None)
      by (eapply execFrom_none_inv; [exact E|lia]).
    rewrite matchAt_chr, Hx, N.eqb_refl in Hn. discriminate Hn.
Qed.

(** [s.replace(/c/g, t)] for a single character and a template without
    [$]: every [c] becomes [t], everything else stays. *)
Lemma replace_chr :
  global fl = true -> has DOLLAR template = false ->
  replace (Chr c) fl template input = flat_map (swap_char c template) input.
Proof.
  intros G T. unfold replace, results. rewrite G.
  apply (@splice_collect_chr (S (S (List.length input))) 0); try assumption; lia.
Qed.

End ReplaceOne.

Lemma In_firstn {A} n (l : list A) x : In x (firstn n l) -> In x l.
Proof.
  intros H. rewrite <- (firstn_skipn n l). apply in_or_app. now left.
Qed.

(** What [replace] returns with an empty template is made of code units of
    its input. *)
Lemma splice_empty_In input r ms i x :
  In x (splice input r [] ms i) -> In x input.
Proof.
  revert i. induction ms as [|[p y] ms IH]; intros i H; cbn [splice] in H.
  - now apply skipn_In in H.
  - destruct (i <=? p); [|now apply IH in H].
    cbn [getSubstitution app] in H. apply in_app_or in H as [H|H].
    + unfold substring in H. apply In_firstn in H. now apply skipn_In in H.
    + now apply IH in H.
Qed.

Lemma replace_empty_In input r fl x :
  In x (replace r fl [] input) -> In x input.
Proof. unfold replace. apply splice_empty_In. Qed.

Lemma has_false_iff c s : has c s = false <-> ~ In c s.
Proof.
  split; [apply has_false_In|].
  intros H. unfold has. destruct (existsb (N.eqb c) s) eqn:E; [|reflexivity].
  apply existsb_exists in E as (x & Hx & Hc). apply N.eqb_eq in Hc. now subst.
Qed.

(** X5: the result of [markdownToHtml] never holds a line feed: the pass
    for [\n] turns every one that is left into [<br>], and the passes after
    it bring none back. *)
Theorem markdownToHtml_has_no_line_feed (text : jsstring) :
  has LF (markdownToHtml text) = false.
Proof.
  unfold markdownToHtml.
  set (t := replace (lit [LF; LF]) flags_g (str "</p><p>") _).
  apply has_false_iff. intros H. apply replace_empty_In in H.
  rewrite replace_eol, replace_bol, replace_chr in H by reflexivity.
  apply in_app_or in H as [H|H]; [|revert H; vm_compute; intuition discriminate].
  apply in_app_or in H as [H|H]; [revert H; vm_compute; intuition discriminate|].
  apply in_flat_map in H as (x & _ & H). unfold swap_char in H.
  destruct (LF =? x)%N eqn:E.
  - revert H. vm_compute. intuition discriminate.
  - destruct H as [H|[]]. subst x. now rewrite N.eqb_refl in E.
Qed.

(** ** The guard on the input *)

Lemma trimStart_nil_iff s : trimStart s = [] <-> forallb isWhiteSpace s = true.
Proof.
  induction s as [|c s IH]; [cbn; tauto|].
  cbn [trimStart forallb]. destruct (isWhiteSpace c); cbn [andb]; [exact IH|].
  split; discriminate.
Qed.

Lemma trimStart_head s c r : trimStart s = c :: r -> isWhiteSpace c = false.
Proof.
  induction s as [|x s IH]; [discriminate|].
  cbn [trimStart]. destruct (isWhiteSpace x) eqn:E; [exact IH|].
  intros H. injection H as <- _. exact E.
Qed.

Lemma forallb_rev {A} (f : A -> bool) l :
  forallb f (rev l) = true -> forallb f l = true.
Proof.
  rewrite !forallb_forall. intros H x Hx. apply H. now apply in_rev in Hx.
Qed.

Lemma trim_nil_iff s : trim s = [] <-> forallb isWhiteSpace s = true.
Proof.
  unfold trim, trimEnd. split.
  - intros H. apply (f_equal (@rev N)) in H. rewrite rev_involutive in H.
    cbn [rev] in H. apply trimStart_nil_iff, forallb_rev in H.
    destruct (trimStart s) as [|c r] eqn:E; [now apply trimStart_nil_iff|].
    apply trimStart_head in E. cbn [forallb] in H.
    rewrite E in H. discriminate.
  - intros H. apply trimStart_nil_iff in H. now rewrite H.
Qed.

(** X6: a submit does nothing but cancel the event exactly when the input
    holds white space only (or nothing): any other input makes the handler
    render a bubble and send a request. *)
Theorem submit_is_noop_iff_blank (v : variant) (net : outcome) (w : widget) :
  run net (submit v) w = (Ok tt, w, [PreventDefault])
  <-> forallb isWhiteSpace (value w) = true.
Proof.
  rewrite <- trim_nil_iff. split; [|apply run_blank].
  intros H. destruct (trim (value w)) as [|c t] eqn:E; [reflexivity|].
  assert (Hr : requests (trace_of (run net (submit v) w)) <> []).
  { rewrite submit_requests by congruence. discriminate. }
  rewrite H in Hr. now contradiction Hr.
Qed.

Lemma submit_is_noop_iff_blank_witness :
  let w := typed [32; 9; 160; 10]%N (page_load (str "Enviar")) in
  run Rejects (submit Early) w = (Ok tt, w, [PreventDefault]).
Proof.
  intros w. apply (proj2 (submit_is_noop_iff_blank Early Rejects w)). reflexivity.
Defined.

(** ** The status of the response *)

(** X17: the early variant never looks at the status of the response: with
    the same body, a 2xx status and any other give the same run. *)
Theorem early_ignores_status (o : bool) (b : option data) (w : widget) :
  run (Resolves {| ok := o; body := b |}) (submit Early) w
  = run (Resolves {| ok := true; body := b |}) (submit Early) w.
Proof.
  destruct (trim (value w)) as [|c t] eqn:E.
  - now rewrite !run_blank.
  - destruct o; [reflexivity|].
    destruct b as [[[|] [|r] e]|]; run_handler; step_handler E; reflexivity.
Qed.

(** X16: in [static/app.js] and in the Markdown variant a status that is not
    2xx is handled as if the server could not be reached: the body is never
    read, [Error de red] is what gets logged, and the page ends up as after
    a rejected request. *)
Theorem error_status_is_handled_as_unreachable (b : option data) (w : widget) :
  trim (value w) <> [] ->
  forall v, v <> Early ->
  let bad := run (Resolves {| ok := false; body := b |}) (submit v) w in
  state_of bad = state_of (run Rejects (submit v) w)
  /\ caught (trace_of bad) = Some (Error network_error)
  /\ ~ In ReadJson (trace_of bad)
  /\ pushes (trace_of bad) = [].
Proof.
  intros Hne v Hv. destruct (trim (value w)) as [|c t] eqn:E; [congruence|].
  destruct v; [| |congruence]; run_handler; step_handler E;
    repeat split; try reflexivity;
    cbn -[markdownToHtml escapeHtml trim]; intuition discriminate.
Qed.

Lemma error_status_is_handled_as_unreachable_witness :
  let w := typed (str "hola") (page_load (str "Enviar")) in
  let b := Some {| success := true; response := Str (str "x"); error := Undefined |} in
  let bad := run (Resolves {| ok := false; body := b |}) (submit Markdown) w in
  state_of bad = state_of (run Rejects (submit Markdown) w)
  /\ caught (trace_of bad) = Some (Error network_error)
  /\ ~ In ReadJson (trace_of bad)
  /\ pushes (trace_of bad) = [].
Proof.
  intros w b.
  apply (@error_status_is_handled_as_unreachable b w);
    [vm_compute; discriminate | discriminate].
Defined.

(** ** Exchanges in a row *)

Lemma exchange_history (v : variant) (w : widget) (d : data) (r : jsstring) :
  trim (value w) <> [] -> success d = true -> response d = Str r ->
  history (state_of (run (Resolves {| ok := true; body := Some d |}) (submit v) w))
  = history w ++ [ {| sender := Usuario; text := Str (trim (value w)) |};
                   {| sender := Bot; text := Str r |} ].
Proof.
  intros Hne Hs Hr. destruct d as [s rs er]. simpl in Hs, Hr. subst.
  destruct (trim (value w)) as [|c t] eqn:E; [congruence|].
  destruct v; run_handler; step_handler E; rewrite <- ?app_assoc; reflexivity.
Qed.

(** X18: the request of the next submit carries the exchange that went
    before: after a successful exchange, whatever the user types next is
    sent with the old history followed by the user's previous text and the
    reply to it. *)
Theorem next_request_carries_exchange
        (v : variant) (w : widget) (d : data) (r next : jsstring) (net : outcome) :
  trim (value w) <> [] -> success d = true -> response d = Str r ->
  trim next <> [] ->
  let w1 := state_of (run (Resolves {| ok := true; body := Some d |}) (submit v) w) in
  requests (trace_of (run net (submit v) (typed next w1)))
  = [ {| message := trim next;
         sent_history :=
           history w ++ [ {| sender := Usuario; text := Str (trim (value w)) |};
                          {| sender := Bot; text := Str r |} ] |} ].
Proof.
  intros Hne Hs Hr Hn w1.
  rewrite submit_requests by exact Hn.
  cbn [typed value history]. unfold w1.
  now rewrite (exchange_history v w d Hne Hs Hr).
Qed.

Lemma next_request_carries_exchange_witness :
  let w := typed (str "hola") (page_load (str "Enviar")) in
  let d := {| success := true; response := Str (str "buenas"); error := Undefined |} in
  let w1 := state_of (run (Resolves {| ok := true; body := Some d |})
                          (submit Static) w) in
  requests (trace_of (run Rejects (submit Static) (typed (str " y tu? ") w1)))
  = [ {| message := trim (str " y tu? ");
         sent_history :=
           history w ++ [ {| sender := Usuario; text := Str (trim (value w)) |};
                          {| sender := Bot; text := Str (str "buenas") |} ] |} ].
Proof.
  intros w d.
  apply (@next_request_carries_exchange Static w d (str "buenas") (str " y tu? ")
                                        Rejects);
    [vm_compute; discriminate | reflexivity | reflexivity | vm_compute; discriminate].
Defined.

(** ** What is sent is trimmed *)

Lemma trimStart_keeps_last l h :
  isWhiteSpace h = false -> trimStart (l ++ [h]) = trimStart l ++ [h].
Proof.
  intros Hh. induction l as [|x l IH]; cbn [app trimStart].
  - now rewrite Hh.
  - destruct (isWhiteSpace x); [exact IH|reflexivity].
Qed.

Lemma trim_head s c r : trim s = c :: r -> isWhiteSpace c = false.
Proof.
  unfold trim, trimEnd. destruct (trimStart s) as [|h u] eqn:E; [discriminate|].
  pose proof (trimStart_head _ E) as Hh.
  cbn [rev]. rewrite trimStart_keeps_last by exact Hh.
  rewrite rev_app_distr. cbn [rev app]. intros H. injection H as <- _. exact Hh.
Qed.

Lemma trim_last s c r : trim s = r ++ [c] -> isWhiteSpace c = false.
Proof.
  unfold trim, trimEnd. intros H.
  apply (f_equal (@rev N)) in H. rewrite rev_involutive, rev_app_distr in H.
  cbn [rev app] in H. now apply trimStart_head in H.
Qed.

(** X7: the message of every request the handlers send neither begins nor
    ends with white space. *)
Theorem message_is_trimmed (v : variant) (net : outcome) (w : widget) (req : request) :
  In req (requests (trace_of (run net (submit v) w))) ->
  (forall c r, message req = c :: r -> isWhiteSpace c = false)
  /\ (forall c r, message req = r ++ [c] -> isWhiteSpace c = false).
Proof.
  intros H. destruct (trim (value w)) as [|x t] eqn:E.
  - rewrite run_blank in H by exact E. destruct H.
  - rewrite submit_requests in H by congruence.
    destruct H as [<-|[]]. cbn [message]. split; intros c r Hc.
    + now apply trim_head in Hc.
    + now apply trim_last in Hc.
Qed.

Lemma message_is_trimmed_witness :
  let w := typed (str "  hola  ") (page_load (str "Enviar")) in
  let req := {| message := str "hola"; sent_history := [] |} in
  In req (requests (trace_of (run Rejects (submit Static) w)))
  /\ (forall c r, message req = c :: r -> isWhiteSpace c = false)
  /\ (forall c r, message req = r ++ [c] -> isWhiteSpace c = false).
Proof.
  intros w req.
  assert (H : In req (requests (trace_of (run Rejects (submit Static) w))))
    by (vm_compute; left; reflexivity).
  split; [exact H|]. exact (message_is_trimmed Static Rejects w req H).
Defined.

(** ** Witnesses for the two guarded variants *)

Lemma controls_restored_witness :
  let w := clicked (typed (str "hola") (page_load (str "Enviar"))) in
  let w' := state_of (run Rejects (submit Markdown) w) in
  disabled w' = false /\ activeElement w' = OnInput /\ label w' = label w.
Proof.
  intros w.
  apply (@controls_restored Markdown Rejects w);
    [discriminate | vm_compute; discriminate].
Defined.

